(** * MiC: dataset curation for retrospective illumination correction

    A shallow embedding of the notebook [notebooks/create_cidre_dset.ipynb]
    (the "Dataset Curator") of lens-biophotonics/mic, and of the correction
    formula the package applies to a stack.

    Conventions of the embedding

    - a NumPy array is a record of element type, shape and row-major data;
      element values are rationals ([Q]), so that the integer pixels of a
      stack and the interpolated pixels of a resized frame live in one type;
    - a Python float is a double: a rational, an infinity or [nan]. The
      thresholds of the inclusion test and the two lengths of the z-stride
      are given as the numbers written in the notebook and rounded to the
      nearest double where the cell uses them; the quotients and the product
      the cell computes with them are rounded again, as the machine does;
    - the notebook's globals that the export cell mutates ([num_slc],
      [ds_size]), the folder list [wavedirs], the file system and the
      sequence of [tiff.imwrite] calls form the state; an exception leaves
      the state as it was when it was raised, as in the Python session;
    - [tiff.imread] is an input: the run receives, for every path of
      [stack_lst] in its (shuffled) order, the array read or the exception
      raised;
    - the interpolation kernel of [skimage.transform.resize] is a parameter
      [interp]; the shape and element type of the result follow the library.
*)

From Stdlib Require Import ZArith QArith Qround Ascii String DecimalString.
From Stdlib Require DecimalPos DecimalZ.
From stdpp Require Import base option list strings gmap.

Open Scope Z_scope.

(** ** Exceptions and results *)

Inductive exn : Type :=
  | IndexError
  | ZeroDivisionError
  | ValueError
  | FileNotFoundError
  | TiffFileError
  | OverflowError.

Inductive result (A : Type) : Type :=
  | Ok (a : A)
  | Raised (e : exn).
Arguments Ok {A} a.
Arguments Raised {A} e.

Definition is_ok {A : Type} (r : result A) : bool :=
  match r with Ok _ => true | Raised _ => false end.

(** [l[i]] on a Python sequence, for a non-negative index. *)
Definition getitem {A : Type} (l : list A) (i : nat) : result A :=
  match l !! i with
  | Some x => Ok x
  | None => Raised IndexError
  end.

(** ** The NumPy fragment the notebook uses *)

Module Np.

Inductive dtype_t : Type := UInt8 | UInt16 | UInt32 | Float32 | Float64.

(** [a.itemsize] *)
Definition itemsize (d : dtype_t) : Z :=
  match d with
  | UInt8 => 1
  | UInt16 => 2
  | UInt32 => 4
  | Float32 => 4
  | Float64 => 8
  end.

(** [np.iinfo(dtype).max]; [np.iinfo] rejects floating-point types. *)
Definition iinfo_max (d : dtype_t) : result Z :=
  match d with
  | UInt8 => Ok 255
  | UInt16 => Ok 65535
  | UInt32 => Ok 4294967295
  | Float32 | Float64 => Raised ValueError
  end.

Record ndarray : Type := mk_ndarray {
  dtype : dtype_t;
  shape : list nat;
  data : list Q
}.

Definition ndim (a : ndarray) : nat := length (shape a).

Definition prod (l : list nat) : nat := foldr Nat.mul 1%nat l.

(** [np.size(a)] *)
Definition size (a : ndarray) : nat := prod (shape a).

(** [a.shape[k]] *)
Definition shape_at (a : ndarray) (k : nat) : result nat :=
  getitem (shape a) k.

(** [a[i, ...]]: the [i]-th block along the first axis. *)
Definition getitem_first (a : ndarray) (i : nat) : result ndarray :=
  match shape a with
  | [] => Raised IndexError
  | n :: rest =>
      if (i <? n)%nat
      then Ok (mk_ndarray (dtype a) rest
                 (take (prod rest) (drop (i * prod rest) (data a))))
      else Raised IndexError
  end.

(** [a[c, :, :]]: three indices, so at least three axes are needed. *)
Definition getitem_first_2d (a : ndarray) (c : nat) : result ndarray :=
  if (ndim a <? 3)%nat then Raised IndexError else getitem_first a c.

(** [a[..., c]]: component [c] along the last axis. *)
Definition getitem_last (a : ndarray) (c : nat) : result ndarray :=
  match last (shape a) with
  | None => Raised IndexError
  | Some m =>
      if (c <? m)%nat
      then
        let outer := removelast (shape a) in
        Ok (mk_ndarray (dtype a) outer
              ((fun r => default 0%Q (data a !! (r * m + c)%nat))
                 <$> seq 0 (prod outer)))
      else Raised IndexError
  end.

(** [a[np.newaxis, ...]] and [a[..., np.newaxis]] *)
Definition newaxis_first (a : ndarray) : ndarray :=
  mk_ndarray (dtype a) (1%nat :: shape a) (data a).
Definition newaxis_last (a : ndarray) : ndarray :=
  mk_ndarray (dtype a) (shape a ++ [1%nat]) (data a).

Definition Qlt_bool (x y : Q) : bool := negb (Qle_bool y x).

(** [a[a != 0]]: the non-zero elements, as a flat sequence. *)
Definition nonzero (a : ndarray) : list Q :=
  List.filter (fun x => negb (Qeq_bool x 0)) (data a).

Definition Qsum (l : list Q) : Q := foldr Qplus 0%Q l.

(** The mean of a sequence as an exact rational, [None] for the [nan] of
    an empty sequence. *)
Definition mean (l : list Q) : option Q :=
  match l with
  | [] => None
  | _ => Some (Qsum l / inject_Z (Z.of_nat (length l)))%Q
  end.

(** *** Double precision *)

(** A Python float: a finite double is the rational it stands for. *)
Inductive float : Type :=
  | Fin (q : Q)
  | Inf (negative : bool)
  | NaN.

Definition pow2 (e : Z) : Q :=
  if (0 <=? e) then inject_Z (2 ^ e) else 1 # Z.to_pos (2 ^ (- e)).

(** For [q > 0], the exponent [e] with [2^e <= q < 2^(e+1)]. *)
Definition ilog2 (q : Q) : Z :=
  let e0 := Z.log2 (Qnum q) - Z.log2 (Zpos (Qden q)) in
  if Qlt_bool q (pow2 e0) then e0 - 1 else e0.

(** The nearest integer, the even one of two that are as near. *)
Definition round_half_even (x : Q) : Z :=
  let f := Qfloor x in
  match (x - inject_Z f ?= 1 # 2)%Q with
  | Lt => f
  | Gt => f + 1
  | Eq => if Z.even f then f else f + 1
  end.

(** The double nearest to a positive rational (IEEE 754 binary64, round
    to nearest, ties to even): 53 significant bits, the least exponent
    that of the subnormal numbers, infinity from [2^1024 - 2^970] on. *)
Definition round_pos (q : Q) : float :=
  let e := Z.max (ilog2 q - 52) (-1074) in
  let m := round_half_even (q / pow2 e) in
  if ((971 <? e) || ((e =? 971) && (m =? 2 ^ 53)))%bool then Inf false
  else Fin (inject_Z m * pow2 e).

Definition fneg (a : float) : float :=
  match a with
  | Fin x => Fin (- x)
  | Inf s => Inf (negb s)
  | NaN => NaN
  end.

(** The double that a number written in the source, or the exact result
    of an operation on doubles, becomes. *)
Definition round64 (q : Q) : float :=
  match (q ?= 0)%Q with
  | Eq => Fin 0
  | Gt => round_pos q
  | Lt => fneg (round_pos (- q))
  end.

(** [a > b] on floats: false when either side is [nan]. *)
Definition fgt (a b : float) : bool :=
  match a, b with
  | NaN, _ | _, NaN => false
  | Fin x, Fin y => Qlt_bool y x
  | Fin _, Inf s => s
  | Inf s, Fin _ => negb s
  | Inf s, Inf s' => (negb s && s')%bool
  end.

Definition fis_zero (a : float) : bool :=
  match a with
  | Fin x => Qeq_bool x 0
  | _ => false
  end.

(** The sign of a float other than zero and [nan]: [true] for negative. *)
Definition fsign (a : float) : bool :=
  match a with
  | Fin x => Qlt_bool x 0
  | Inf s => s
  | NaN => false
  end.

(** [a * b] on floats. *)
Definition fmul (a b : float) : float :=
  match a, b with
  | NaN, _ | _, NaN => NaN
  | Fin x, Fin y => round64 (x * y)
  | _, _ =>
      if (fis_zero a || fis_zero b)%bool then NaN
      else Inf (xorb (fsign a) (fsign b))
  end.

(** [a / b] on floats, for a divisor other than zero. *)
Definition fdiv (a b : float) : float :=
  match a, b with
  | NaN, _ | _, NaN => NaN
  | Fin x, Fin y => round64 (x / y)
  | Fin _, Inf _ => Fin 0
  | Inf s, Fin _ => Inf (xorb s (fsign b))
  | Inf _, Inf _ => NaN
  end.

(** A float that is neither an infinity nor [nan], and the rational it
    stands for. *)
Definition is_finite (a : float) : bool :=
  match a with
  | Fin _ => true
  | _ => false
  end.

Definition fvalue (a : float) : Q :=
  match a with
  | Fin x => x
  | _ => 0
  end.

(** [math.ceil(a)] *)
Definition fceil (a : float) : result Z :=
  match a with
  | Fin x => Ok (Qceiling x)
  | Inf _ => Raised OverflowError
  | NaN => Raised ValueError
  end.

(** [np.count_nonzero(a > t)] for a float [t] *)
Definition count_above (t : float) (a : ndarray) : nat :=
  length (List.filter (fun x => fgt (Fin x) t) (data a)).

(** [np.mean(l)] for integer elements: they are added in double
    precision, which is exact for a sum below [2^53], and the sum is
    divided by their number, which rounds. The mean of an empty sequence
    is [nan]. *)
Definition fmean (l : list Q) : float :=
  match l with
  | [] => NaN
  | _ => round64 (Qsum l / inject_Z (Z.of_nat (length l)))
  end.

(** [np.all(v)]: every element is non-zero. *)
Definition all (v : list Z) : bool := forallb (fun x => negb (x =? 0)) v.

(** A Python bool used as a number. *)
Definition bool_to_Q (b : bool) : Q := if b then 1%Q else 0%Q.

End Np.

(** ** Paths *)

Module Pathlib.

(** Index of the last ['.'] of a name ([str.rfind]). *)
Fixpoint rfind_dot (s : string) : option nat :=
  match s with
  | EmptyString => None
  | String a s' =>
      match rfind_dot s' with
      | Some i => Some (S i)
      | None => if Ascii.eqb a "."%char then Some 0%nat else None
      end
  end.

(** [PurePath.suffix] (Python 3.12): the text from the last dot on, unless
    the dot is the first or the last character of the name. *)
Definition suffix (name : string) : string :=
  match rfind_dot name with
  | Some i =>
      if ((0 <? i)%nat && (i <? String.length name - 1)%nat)%bool
      then String.substring i (String.length name - i) name
      else EmptyString
  | None => EmptyString
  end.

Definition lower_ascii (a : Ascii.ascii) : Ascii.ascii :=
  let n := Ascii.nat_of_ascii a in
  if ((65 <=? n)%nat && (n <=? 90)%nat)%bool then Ascii.ascii_of_nat (n + 32) else a.

(** [str.lower], on the ASCII letters. *)
Fixpoint lower (s : string) : string :=
  match s with
  | EmptyString => EmptyString
  | String a s' => String (lower_ascii a) (lower s')
  end.

(** [parent / name] *)
Definition joinpath (parent name : string) : string :=
  (parent +:+ "/" +:+ name)%string.

(** Index of the last ['/'] of a path. *)
Fixpoint rfind_slash (s : string) : option nat :=
  match s with
  | EmptyString => None
  | String a s' =>
      match rfind_slash s' with
      | Some i => Some (S i)
      | None => if Ascii.eqb a "/"%char then Some 0%nat else None
      end
  end.

(** [PurePath.parent]: the path without its last component; the current
    directory for a single component, the root for a component under the
    root. *)
Definition parent (p : string) : string :=
  match rfind_slash p with
  | None => "."
  | Some O => "/"
  | Some i => String.substring 0 i p
  end.

(** [PurePath.name]: the last component. *)
Definition name (p : string) : string :=
  match rfind_slash p with
  | None => p
  | Some i => String.substring (S i) (String.length p - S i) p
  end.

(** [str(n)] for an integer, as an f-string prints it. *)
Definition str (n : Z) : string := NilZero.string_of_int (Z.to_int n).

End Pathlib.

(** ** [skimage.transform.resize] *)

Module Skimage.
Import Np.

Section Resize.
(** The interpolation itself (Gaussian pre-filter and spline zoom) is
    outside the program: [interp image shp] stands for the pixel values
    that the library computes for the target shape [shp]. *)
Variable interp : ndarray -> list nat -> list Q.

(** With [preserve_range=True] the image is converted to double
    precision unless it already is a single or double precision float. *)
Definition convert_to_float (d : dtype_t) : dtype_t :=
  match d with
  | Float32 => Float32
  | _ => Float64
  end.

(** [resize(image, output_shape=(h, w), anti_aliasing=True,
    preserve_range=True)]. An image with fewer axes than the output
    shape is reshaped first; with one more axis, its last axis is kept;
    with more than that the call is rejected. *)
Definition resize (image : ndarray) (h w : nat) : result ndarray :=
  if (ndim image <=? 2)%nat then
    Ok (mk_ndarray (convert_to_float (dtype image)) [h; w]
          (interp image [h; w]))
  else if (ndim image =? 3)%nat then
    let shp := [h; w] ++ drop 2 (shape image) in
    Ok (mk_ndarray (convert_to_float (dtype image)) shp (interp image shp))
  else Raised ValueError.
End Resize.

End Skimage.

(** ** The notebook *)

Module Curator.
Import Np.

(** The cells "I/O image paths" and "Export options". *)
Record config : Type := mk_config {
  wv : list Z;
  outdir : string;
  ch_first : bool;
  obj : string;
  bg_lvl : Q;
  bg_rel_thr : Q;
  mean_rel_thr : Q;
  max_dset_size : Q;
  z_strd_um : Q;
  px_sz_z : Q;
  x_shp_out : option nat
}.

(** One call of [tiff.imwrite]. [file_chan] is not an argument of the
    call: it records the channel index [c] of the loop iteration that
    made the call. *)
Record tiff_file : Type := mk_tiff_file {
  file_dir : string;
  file_name : string;
  file_image : ndarray;
  file_compression : option string;
  file_chan : nat
}.

Definition file_path (f : tiff_file) : string :=
  Pathlib.joinpath (file_dir f) (file_name f).

(** The mutable part of the session. [fs] maps an existing folder to the
    names of its entries, files and folders alike; the current directory
    and the root exist also when [fs] lists nothing for them. *)
Record state : Type := mk_state {
  num_slc : list Z;
  ds_size : list Z;
  wavedirs : list string;
  fs : gmap string (list string);
  written : list tiff_file
}.

Definition set_num_slc (v : list Z) (st : state) : state :=
  mk_state v (ds_size st) (wavedirs st) (fs st) (written st).
Definition set_ds_size (v : list Z) (st : state) : state :=
  mk_state (num_slc st) v (wavedirs st) (fs st) (written st).
Definition set_wavedirs (v : list string) (st : state) : state :=
  mk_state (num_slc st) (ds_size st) v (fs st) (written st).
Definition set_fs (v : gmap string (list string)) (st : state) : state :=
  mk_state (num_slc st) (ds_size st) (wavedirs st) v (written st).
Definition add_written (f : tiff_file) (st : state) : state :=
  mk_state (num_slc st) (ds_size st) (wavedirs st) (fs st) (written st ++ [f]).

(** *** State and exceptions *)

Definition M (A : Type) : Type := state -> state * result A.

Definition ret {A : Type} (a : A) : M A := fun st => (st, Ok a).
Definition raise {A : Type} (e : exn) : M A := fun st => (st, Raised e).
Definition bind {A B : Type} (m : M A) (k : A -> M B) : M B :=
  fun st =>
    match m st with
    | (st', Ok a) => k a st'
    | (st', Raised e) => (st', Raised e)
    end.
Definition lift {A : Type} (r : result A) : M A := fun st => (st, r).
Definition gets {A : Type} (f : state -> A) : M A := fun st => (st, Ok (f st)).
Definition modify (f : state -> state) : M unit := fun st => (f st, Ok tt).

Declare Scope curator_scope.
Delimit Scope curator_scope with cur.
Notation "x <- m ;; k" := (bind m (fun x => k))
  (at level 100, m at next level, right associativity) : curator_scope.
Notation "m ;;; k" := (bind m (fun _ => k))
  (at level 100, right associativity) : curator_scope.
Open Scope curator_scope.

(** *** Cell "Evaluate I/O directory content" *)

(** [file.suffix.lower() in ['.tif', '.tiff']] *)
Definition is_tiff_name (name : string) : bool :=
  let s := Pathlib.lower (Pathlib.suffix name) in
  (String.eqb s ".tif" || String.eqb s ".tiff")%bool.

(** [sum(1 for file in wavedir.iterdir() if ...)] *)
Definition count_tiff (entries : list string) : Z :=
  Z.of_nat (length (List.filter is_tiff_name entries)).

(** [outdir / f'{obj}_{w}nm'] *)
Definition wavedir_of (cfg : config) (w : Z) : string :=
  Pathlib.joinpath (outdir cfg) (obj cfg +:+ "_" +:+ Pathlib.str w +:+ "nm")%string.

(** The current directory and the root. *)
Definition is_anchor (p : string) : bool :=
  (String.eqb p "." || String.eqb p "/")%bool.

(** [p.is_dir()] *)
Definition is_dir (m : gmap string (list string)) (p : string) : bool :=
  (is_anchor p || bool_decide (is_Some (m !! p)))%bool.

(** A new name in the listing of a folder. *)
Definition add_entry (dir name : string) (m : gmap string (list string))
  : gmap string (list string) :=
  let entries := default [] (m !! dir) in
  <[dir := if bool_decide (name ∈ entries) then entries else entries ++ [name]]> m.

(** [p.mkdir(parents=True, exist_ok=True)]: a folder that exists is left
    as it is; otherwise the parent is made first, in the same way, then
    the folder, empty, and its name is entered in the listing of the
    parent. The recursion ends at a folder that exists, at the latest at
    the current directory or the root; [fuel] bounds its depth. *)
Fixpoint mkdir_parents (fuel : nat) (p : string) (m : gmap string (list string))
  : gmap string (list string) :=
  if is_dir m p then m
  else
    match fuel with
    | O => m
    | S k =>
        add_entry (Pathlib.parent p) (Pathlib.name p)
          (<[p := []]> (mkdir_parents k (Pathlib.parent p) m))
    end.

Definition mkdir (p : string) (m : gmap string (list string))
  : gmap string (list string) :=
  mkdir_parents (String.length p) p m.

(** Body of [for c, w in enumerate(wv)]. *)
Definition io_body (cfg : config) (c : nat) (w : Z) : M unit :=
  if (w =? -1) then ret tt
  else
    let wavedir := wavedir_of cfg w in
    st <- gets id ;;
    match fs st !! wavedir with
    | None => modify (set_fs (mkdir wavedir (fs st)))
    | Some entries =>
        modify (set_num_slc (<[c := count_tiff entries]> (num_slc st)))
    end ;;;
    modify (fun st => set_wavedirs (wavedirs st ++ [wavedir]) st).

Fixpoint io_loop (cfg : config) (c : nat) (ws : list Z) : M unit :=
  match ws with
  | [] => ret tt
  | w :: ws' => io_body cfg c w ;;; io_loop cfg (S c) ws'
  end.

(** The cell, up to the listing of the stacks. *)
Definition io_cell (cfg : config) : M unit :=
  modify (set_num_slc (replicate (length (wv cfg)) 0)) ;;;
  modify (set_wavedirs []) ;;;
  io_loop cfg 0 (wv cfg).

(** *** Cell "Export 2D frames imposing the required inclusion criteria" *)

Section ExportCell.
Variable interp : ndarray -> list nat -> list Q.
Variable cfg : config.

(** [np.count_nonzero(slc > bg_lvl) / np.size(slc) > bg_rel_thr
     and np.mean(slc[slc != 0]) > mean_rel_thr * img_max].
    The quotient is a division of two Python integers, which gives the
    double nearest to the exact quotient; the product is that of the
    double [mean_rel_thr] and the integer [img_max] as a double; both
    comparisons are between doubles. [and] does not evaluate its right
    operand when the left one is false. *)
Definition bg_fraction (slc : ndarray) : float :=
  round64 (inject_Z (Z.of_nat (count_above (round64 (bg_lvl cfg)) slc))
           / inject_Z (Z.of_nat (size slc))).

Definition mean_threshold (img_max : Z) : float :=
  fmul (round64 (mean_rel_thr cfg)) (round64 (inject_Z img_max)).

Definition inclusion_test (img_max : Z) (slc : ndarray) : result bool :=
  if (size slc =? 0)%nat then Raised ZeroDivisionError
  else if fgt (bg_fraction slc) (round64 (bg_rel_thr cfg))
  then Ok (fgt (fmean (nonzero slc)) (mean_threshold img_max))
  else Ok false.

(** [tiff.imwrite(dir / name, img, compression='zlib')] *)
Definition imwrite (dir name : string) (img : ndarray) (c : nat) : M unit :=
  st <- gets id ;;
  match fs st !! dir with
  | None => raise FileNotFoundError
  | Some entries =>
      let entries' :=
        if bool_decide (name ∈ entries) then entries else entries ++ [name] in
      modify (fun st =>
        add_written (mk_tiff_file dir name img (Some "zlib"%string) c)
          (set_fs (<[dir := entries']> (fs st)) st))
  end.

(** The statements under the inclusion test. *)
Definition export_slice (c : nat) (slc : ndarray) : M ndarray :=
  slc <- match x_shp_out cfg with
         | Some x =>
             h <- lift (shape_at slc 0) ;;
             lift (Skimage.resize interp slc h x)
         | None => ret slc
         end ;;
  wavedir <- (st <- gets id ;; lift (getitem (wavedirs st) c)) ;;
  n <- (st <- gets id ;; lift (getitem (num_slc st) c)) ;;
  imwrite wavedir (Pathlib.str n +:+ ".tiff")%string slc c ;;;
  d <- (st <- gets id ;; lift (getitem (ds_size st) c)) ;;
  modify (fun st =>
    set_ds_size
      (<[c := d + itemsize (dtype slc) * Z.of_nat (size slc)]> (ds_size st))
      st) ;;;
  k <- (st <- gets id ;; lift (getitem (num_slc st) c)) ;;
  modify (fun st => set_num_slc (<[c := k + 1]> (num_slc st)) st) ;;;
  ret slc.

(** [np.all(ds_size) >= max_dset_size] *)
Definition size_reached (st : state) : bool :=
  Qle_bool (max_dset_size cfg) (bool_to_Q (all (ds_size st))).

(** Body of [for c in range(slc.shape[ch_ax])]: the new value of the
    variable [slc], and whether [break] was executed. *)
Definition channel_body (img_max : Z) (c : nat) (slc : ndarray)
  : M (ndarray * bool) :=
  w <- lift (getitem (wv cfg) c) ;;
  if (0 <? w) then
    slc <- lift (if ch_first cfg
                 then getitem_first_2d slc c
                 else getitem_last slc c) ;;
    ok <- lift (inclusion_test img_max slc) ;;
    slc <- (if ok : bool then export_slice c slc else ret slc) ;;
    st <- gets id ;;
    ret (slc, size_reached st)
  else ret (slc, false).

Fixpoint channel_loop (img_max : Z) (cs : list nat) (slc : ndarray) : M unit :=
  match cs with
  | [] => ret tt
  | c :: cs' =>
      r <- channel_body img_max c slc ;;
      if snd r then ret tt else channel_loop img_max cs' (fst r)
  end.

Definition ch_ax : nat := if ch_first cfg then 0%nat else 2%nat.

(** Body of [for z in range(0, img.shape[0], z_strd)]. *)
Definition z_body (img : ndarray) (img_max : Z) (z : nat) : M unit :=
  slc <- lift (getitem_first img z) ;;
  let slc :=
    if (ndim slc =? 2)%nat
    then (if ch_first cfg then newaxis_first slc else newaxis_last slc)
    else slc in
  n <- lift (shape_at slc ch_ax) ;;
  channel_loop img_max (seq 0 n) slc.

Fixpoint z_loop (img : ndarray) (img_max : Z) (zs : list nat) : M unit :=
  match zs with
  | [] => ret tt
  | z :: zs' => z_body img img_max z ;;; z_loop img img_max zs'
  end.

(** [range(0, stop, step)] *)
Definition range_step (stop : nat) (step : Z) : result (list nat) :=
  if (step =? 0) then Raised ValueError
  else if (step <? 0) then Ok []
  else
    let s := Z.to_nat step in
    Ok ((fun k => (k * s)%nat) <$> seq 0 ((stop + s - 1) / s)%nat).

(** Body of [for f in stack_lst]; [f] is what [tiff.imread] gives. *)
Definition process_stack (z_strd : Z) (f : result ndarray) : M unit :=
  img <- lift f ;;
  img_max <- lift (iinfo_max (dtype img)) ;;
  stop <- lift (shape_at img 0) ;;
  zs <- lift (range_step stop z_strd) ;;
  z_loop img img_max zs.

Fixpoint stack_loop (z_strd : Z) (stack_lst : list (result ndarray)) : M unit :=
  match stack_lst with
  | [] => ret tt
  | f :: fs' => process_stack z_strd f ;;; stack_loop z_strd fs'
  end.

(** [ceil(z_strd_um / px_sz_z)]: the quotient of the two numbers as
    doubles is rounded to a double, of which [math.ceil] takes the
    ceiling; it rejects an infinity and [nan]. *)
Definition z_strd : result Z :=
  let um := round64 (z_strd_um cfg) in
  let px := round64 (px_sz_z cfg) in
  if fis_zero px then Raised ZeroDivisionError
  else fceil (fdiv um px).

Definition export_cell (stack_lst : list (result ndarray)) : M unit :=
  modify (set_ds_size (replicate (length (wv cfg)) 0)) ;;;
  step <- lift z_strd ;;
  stack_loop step stack_lst.

(** The two cells in sequence. *)
Definition notebook (stack_lst : list (result ndarray)) : M unit :=
  io_cell cfg ;;; export_cell stack_lst.

End ExportCell.

(** A session that has run nothing yet, on the file system [fs0]. *)
Definition fresh (fs0 : gmap string (list string)) : state :=
  mk_state [] [] [] fs0 [].

End Curator.

(** ** What the statements below speak about *)

Module Spec.
Import Np Curator.

(** [a < b] on floats, as a proposition. *)
Definition float_lt (a b : float) : Prop :=
  match a, b with
  | Fin x, Fin y => (x < y)%Q
  | Fin _, Inf negative => negative = false
  | Inf negative, Fin _ => negative = true
  | Inf negative, Inf negative' => negative = true /\ negative' = false
  | _, _ => False
  end.

(** A pixel value strictly above a level. *)
Definition above (level : float) (x : Q) : bool :=
  match level with
  | Fin t => match (x ?= t)%Q with Gt => true | _ => false end
  | Inf negative => negative
  | NaN => false
  end.

(** The pixels of a frame, counted and added up directly on the list of
    its values: how many lie strictly above a level, how many are not
    zero, and what the latter add up to. *)
Fixpoint pixels_above (level : float) (px : list Q) : Z :=
  match px with
  | [] => 0
  | x :: rest => (if above level x then 1 else 0) + pixels_above level rest
  end.

Fixpoint nonzero_number (px : list Q) : Z :=
  match px with
  | [] => 0
  | x :: rest =>
      match (x ?= 0)%Q with
      | Eq => nonzero_number rest
      | _ => 1 + nonzero_number rest
      end
  end.

Fixpoint nonzero_total (px : list Q) : Q :=
  match px with
  | [] => 0
  | x :: rest =>
      match (x ?= 0)%Q with
      | Eq => nonzero_total rest
      | _ => x + nonzero_total rest
      end
  end.

(** The number of pixels that the shape of a frame announces. *)
Definition pixel_number (slc : ndarray) : Z :=
  foldr (fun n acc => Z.of_nat n * acc) 1 (shape slc).

(** The two inclusion criteria in the words of the specification, over
    the rationals: the fraction of pixels above [bg_lvl] exceeds
    [bg_rel_thr], and the non-zero pixels have a mean that exceeds
    [mean_rel_thr * img_max]. *)
Definition criteria_exact (cfg : config) (img_max : Z) (slc : ndarray) : Prop :=
  (bg_rel_thr cfg
   < inject_Z (pixels_above (Fin (bg_lvl cfg)) (data slc))
     / inject_Z (pixel_number slc))%Q /\
  nonzero_number (data slc) <> 0 /\
  (mean_rel_thr cfg * inject_Z img_max
   < nonzero_total (data slc) / inject_Z (nonzero_number (data slc)))%Q.

(** The two inclusion criteria in double precision: the double nearest
    to the fraction of pixels above [bg_lvl] is greater than the double
    [bg_rel_thr], and there are non-zero pixels, the double nearest to
    their mean being greater than the double nearest to the product of
    [mean_rel_thr] and [img_max]. *)
Definition criteria_hold (cfg : config) (img_max : Z) (slc : ndarray) : Prop :=
  float_lt (round64 (bg_rel_thr cfg))
    (round64 (inject_Z (pixels_above (round64 (bg_lvl cfg)) (data slc))
              / inject_Z (pixel_number slc))) /\
  nonzero_number (data slc) <> 0 /\
  float_lt
    (fmul (round64 (mean_rel_thr cfg)) (round64 (inject_Z img_max)))
    (round64 (nonzero_total (data slc)
              / inject_Z (nonzero_number (data slc)))).


(** The calls of [tiff.imwrite] made from iterations for channel [c]. *)
Definition of_chan (c : nat) (l : list tiff_file) : list tiff_file :=
  List.filter (fun f => Nat.eqb (file_chan f) c) l.

(** The names [n.tiff], [(n+1).tiff], ... ([k] of them). *)
Definition names_from (n : Z) (k : nat) : list string :=
  (fun j => (Pathlib.str (n + Z.of_nat j) +:+ ".tiff")%string) <$> seq 0 k.

(** The two arrays of the export cell have one length (that of [wv]). *)
Definition arrays_ok (st : state) : Prop :=
  length (num_slc st) = length (ds_size st).

(** A relation between the state a computation starts from and the state
    it ends in, for sessions whose arrays are as the cells create them. *)
Definition guarded (P : state -> state -> Prop) (st st' : state) : Prop :=
  arrays_ok st -> arrays_ok st' /\ P st st'.


(** Channel [c] is left alone between [st] and [st']. *)
Definition untouched (c : nat) (st st' : state) : Prop :=
  num_slc st' !! c = num_slc st !! c /\
  ds_size st' !! c = ds_size st !! c /\
  exists new, written st' = written st ++ new /\ of_chan c new = [].

(** The folders stay as the I/O cell left them. *)
Definition same_folders (st st' : state) : Prop :=
  wavedirs st' = wavedirs st /\
  forall d, is_Some (fs st !! d) -> is_Some (fs st' !! d).

(** A computation keeps a relation between the state it starts from and
    the state it ends in, whether it returns or raises. *)
Definition preserves {A : Type} (R : state -> state -> Prop) (m : M A) : Prop :=
  forall st, R st (fst (m st)).

(** The layout of the exported dataset in the words of the
    specification: [outdir/{objective}/{wavelength}/{N}.tiff]. *)
Definition nested_path (cfg : config) (w : Z) (n : Z) : string :=
  Pathlib.joinpath
    (Pathlib.joinpath (Pathlib.joinpath (outdir cfg) (obj cfg)) (Pathlib.str w))
    (Pathlib.str n +:+ ".tiff")%string.

(** The layout the I/O cell builds: [outdir/{obj}_{w}nm/{N}.tiff]. *)
Definition flat_path (cfg : config) (w : Z) (n : Z) : string :=
  Pathlib.joinpath (wavedir_of cfg w) (Pathlib.str n +:+ ".tiff")%string.

(** The file that an accepted slice [img] of channel [c] becomes. *)
Definition exported_file (dir : string) (n : Z) (img : ndarray) (c : nat)
  : tiff_file :=
  mk_tiff_file dir (Pathlib.str n +:+ ".tiff")%string img (Some "zlib"%string) c.

(** The plane of channel [c] at depth [z] of a four-dimensional stack,
    read off the stack itself. *)
Definition plane_of (cfg : config) (img : ndarray) (z c : nat) : result ndarray :=
  match getitem_first img z with
  | Ok vol => if ch_first cfg then getitem_first vol c else getitem_last vol c
  | Raised e => Raised e
  end.

(** The image that is written for an accepted two-dimensional slice:
    the slice itself, or what [resize] makes of it when [x_shp_out] is
    set. *)
Definition image_out (interp : ndarray -> list nat -> list Q) (cfg : config)
    (plane : ndarray) : ndarray :=
  match x_shp_out cfg with
  | Some x =>
      mk_ndarray (Skimage.convert_to_float (dtype plane))
        [default 0%nat (shape plane !! 0%nat); x]
        (interp plane [default 0%nat (shape plane !! 0%nat); x])
  | None => plane
  end.

(** The state after the export of [img] for channel [c], from a state
    where the counter is [n], the byte total [d] and the folder [dir]
    lists [entries]. *)
Definition state_out (st : state) (c : nat) (dir : string) (n d : Z)
    (entries : list string) (img : ndarray) : state :=
  let name := (Pathlib.str n +:+ ".tiff")%string in
  mk_state
    (<[c := n + 1]> (num_slc st))
    (<[c := d + itemsize (dtype img) * Z.of_nat (size img)]> (ds_size st))
    (wavedirs st)
    (<[dir := if bool_decide (name ∈ entries) then entries else entries ++ [name]]>
       (fs st))
    (written st ++ [exported_file dir n img c]).

(** The folders that the I/O cell collects in [wavedirs]: one for every
    entry of [wv] other than -1, in the order of [wv]. *)
Definition built_wavedirs (cfg : config) : list string :=
  wavedir_of cfg <$> List.filter (fun w => negb (w =? -1)) (wv cfg).

(** The number of TIFF files of folder [d]; 0 when there is no such
    folder. *)
Definition fs_count (fs0 : gmap string (list string)) (d : string) : Z :=
  match fs0 !! d with
  | Some entries => count_tiff entries
  | None => 0
  end.

(** The resizing rule in the words of the specification: the image
    written for an accepted slice is the slice resampled to (height,
    target width) when a target width is configured and differs from the
    width of the slice, and the slice as it is otherwise. *)
Definition resized_when_differs (interp : ndarray -> list nat -> list Q)
    (cfg : config) (plane img : ndarray) : Prop :=
  match x_shp_out cfg, shape plane with
  | Some x, [h; width] =>
      if (x =? width)%nat then img = plane
      else Skimage.resize interp plane h x = Ok img
  | _, _ => img = plane
  end.

(** What the loop of the I/O cell does to the output folders: the folder
    of a wavelength that existed on the initial file system [fs0] keeps
    its entries, one that did not exist is absent or empty. *)
Definition folders_kept (cfg : config) (fs0 : gmap string (list string))
    (st : state) : Prop :=
  forall w,
    match fs0 !! wavedir_of cfg w with
    | Some entries => fs st !! wavedir_of cfg w = Some entries
    | None =>
        fs st !! wavedir_of cfg w = None \/ fs st !! wavedir_of cfg w = Some []
    end.

(** Nothing is removed from a folder: every folder of [fs0] exists in the
    session, and lists what it listed, followed by what was added. *)
Definition entries_kept (fs0 : gmap string (list string)) (st : state) : Prop :=
  forall d entries,
    fs0 !! d = Some entries ->
    exists added, fs st !! d = Some (entries ++ added).

(** What the loop of the I/O cell maintains when it is about to handle
    the entry of index [c0] of [wv]: the output folders are as they were
    on the initial file system [fs0], or new and empty, and the counters
    from [c0] on are still zero. *)
Definition io_inv (cfg : config) (fs0 : gmap string (list string))
    (len c0 : nat) (st : state) : Prop :=
  length (num_slc st) = len /\
  folders_kept cfg fs0 st /\
  (forall c, (c0 <= c < len)%nat -> num_slc st !! c = Some 0).

(** Skip-and-continue in the words of the specification: a stack that
    cannot be read costs only its own frames; the run does not raise, and
    writes what it writes on the readable stacks alone. *)
Definition skips_unreadable (interp : ndarray -> list nat -> list Q)
    (cfg : config) (stack_lst : list (result ndarray))
    (fs0 : gmap string (list string)) : Prop :=
  let out := notebook interp cfg stack_lst (fresh fs0) in
  let readable := notebook interp cfg (List.filter is_ok stack_lst) (fresh fs0) in
  snd out = snd readable /\
  written (fst out) = written (fst readable).

(** The size budget in the words of the specification: the bytes
    exported for a channel exceed [max_dset_size] by less than the size
    of the last file written for it. *)
Definition within_budget (cfg : config) (c : nat) (st : state) : Prop :=
  match ds_size st !! c, last (of_chan c (written st)) with
  | Some total, Some f =>
      let bytes :=
        itemsize (dtype (file_image f)) * Z.of_nat (size (file_image f)) in
      (inject_Z (total - bytes) < max_dset_size cfg)%Q
  | _, _ => True
  end.

End Spec.

(** ** The correction formula *)

Module Corrector.

(** Modelled from the spec: the correction routine of the package (the
    module behind the [mic] command), which the notebook does not contain.
    Zero-light-preserved mode, for a pixel [x] with flat-field value
    [v], dark-field value [z] and scale [s]: [(x - z) * (s / v)]. *)
Definition zero_light_preserved (x v z s : Q) : Q := ((x - z) * (s / v))%Q.

(** Modelled from the spec: the global scale is the mean of the
    flat-field over the field. *)
Definition field_scale (v : list Q) : Q :=
  (Np.Qsum v / inject_Z (Z.of_nat (length v)))%Q.

(** Modelled from the spec: the formula applied element-wise to a frame
    [xs] with the models [vs] and [zs] of the same shape. *)
Definition correct_zero_light (xs vs zs : list Q) : list Q :=
  let s := field_scale vs in
  zip_with (fun x vz => zero_light_preserved x (fst vz) (snd vz) s)
    xs (zip vs zs).

End Corrector.

(** ** Sample inputs *)

Module Sample.
Import Np Curator.

(** A stand-in for the interpolation: every pixel of the result is the
    first pixel of the image. *)
Definition flat_interp (a : ndarray) (shp : list nat) : list Q :=
  replicate (prod shp) (default 0%Q (data a !! 0%nat)).

Definition uint16 (shp : list nat) (px : list Z) : ndarray :=
  mk_ndarray UInt16 shp (inject_Z <$> px).

(** One wavelength, no forced width, a budget of 8 bytes. *)
Definition cfg_one : config :=
  mk_config [638] "out" true "obj" 1 (1 # 2) (5 # 1000) 8 1 1 None.

(** The same with the output width forced to 2. *)
Definition cfg_width : config :=
  mk_config [638] "out" true "obj" 1 (1 # 2) (5 # 1000) 8 1 1 (Some 2%nat).

(** Two wavelengths, channel axis first and last. *)
Definition cfg_two : config :=
  mk_config [488; 561] "out" true "obj" 1 (1 # 2) (5 # 1000) 8 1 1 None.
Definition cfg_two_last : config :=
  mk_config [488; 561] "out" false "obj" 1 (1 # 2) (5 # 1000) 8 1 1 None.

(** A channel that is not exported next to one that is. *)
Definition cfg_skip : config :=
  mk_config [638; 0] "out" true "obj" 1 (1 # 2) (5 # 1000) 8 1 1 None.

(** Three bright 2x2 frames, (Z, Y, X). *)
Definition stack_bright : ndarray :=
  uint16 [3; 2; 2]%nat [900; 900; 900; 900; 700; 700; 700; 700; 800; 800; 800; 800].

(** One bright 2x2 frame. *)
Definition stack_single : ndarray := uint16 [1; 2; 2]%nat [900; 900; 900; 900].

(** One depth, two channels, (Z, C, Y, X). *)
Definition stack_two : ndarray :=
  uint16 [1; 2; 2; 2]%nat [901; 902; 903; 904; 801; 802; 803; 804].

(** The same planes, (Z, Y, X, C). *)
Definition stack_two_last : ndarray :=
  uint16 [1; 2; 2; 2]%nat [901; 801; 902; 802; 903; 803; 904; 804].

Definition plane_bright : ndarray := uint16 [2; 2]%nat [900; 900; 900; 900].
Definition plane_dark : ndarray := uint16 [2; 2]%nat [0; 0; 0; 0].



(** A threshold of 0.12 on the mean, and an 8-bit frame of five pixels
    whose mean is 153/5. *)
Definition cfg_twelve : config :=
  mk_config [638] "out" true "obj" 1 (1 # 2) (12 # 100) 8 1 1 None.
Definition plane_fifths : ndarray :=
  mk_ndarray UInt8 [1; 5]%nat (inject_Z <$> [30; 30; 31; 31; 31]).

(** The state after the I/O cell for one wavelength. *)
Definition st_one : state :=
  mk_state [0] [0] ["out/obj_638nm"%string] {[ "out/obj_638nm"%string := [] ]} [].

(** A frame of two pixels with its flat-field and dark-field models; the
    first pixel sits at its dark-field value. *)
Definition frame_x : list Q := [100; 7]%Q.
Definition model_v : list Q := [2; 4]%Q.
Definition model_z : list Q := [100; 3]%Q.

End Sample.

(** ** The listing of the stacks *)

Module Discovery.

(** [s.endswith(t)] *)
Definition endswith (s t : string) : bool :=
  ((String.length t <=? String.length s)%nat
   && String.eqb
        (String.substring (String.length s - String.length t) (String.length t) s)
        t)%bool.

(** [any(str(dirpath).lower().endswith(fmt) for fmt in formats)] *)
Definition has_format (formats : list string) (path : string) : bool :=
  existsb (fun fmt => endswith (Pathlib.lower path) fmt) formats.

(** The loop over [source.glob('*')]: an entry is a path and the answer of
    [is_file()]. The result is [stack_lst] before it is shuffled. *)
Definition list_stacks (formats : list string) (entries : list (string * bool))
  : list string :=
  fst <$> List.filter (fun e => (snd e && has_format formats (fst e))%bool) entries.

End Discovery.

(** ** Further notions for the statements *)

Module Props.
Import Np Curator Spec.

(** The data of an array are as many as its shape says. *)
Definition well_formed (a : ndarray) : Prop := length (data a) = size a.

(** The frame at depth [z] of a stack: the [z]-th block along the first
    axis. *)
Definition frame (img : ndarray) (z : nat) : ndarray :=
  mk_ndarray (dtype img) (tail (shape img))
    (take (prod (tail (shape img))) (drop (z * prod (tail (shape img))) (data img))).

(** A frame that the inclusion test accepts. *)
Definition accepted (cfg : config) (img_max : Z) (p : ndarray) : bool :=
  match inclusion_test cfg img_max p with
  | Ok b => b
  | Raised _ => false
  end.

(** The number of sentinel entries among the first [c] wavelengths. *)
Definition sentinels_before (cfg : config) (c : nat) : nat :=
  length (List.filter (fun w => w =? -1) (take c (wv cfg))).

(** The TIFF files of a folder are [0.tiff], [1.tiff], ... without a gap,
    in whatever order the folder lists them. *)
Definition numbered_folder (entries : list string) : Prop :=
  List.filter is_tiff_name entries
  ≡ₚ names_from 0 (length (List.filter is_tiff_name entries)).

(** Every output folder that exists on a file system is numbered. *)
Definition fs_numbered (cfg : config) (fs0 : gmap string (list string)) : Prop :=
  forall w entries,
    w ∈ wv cfg -> fs0 !! wavedir_of cfg w = Some entries -> numbered_folder entries.

(** In a session, the folder of every channel holds the files
    [0.tiff], ..., [(n-1).tiff] for the value [n] of the channel's counter,
    and no two channels share a folder. *)
Definition numbered (st : state) : Prop :=
  NoDup (wavedirs st) /\
  forall c dir n,
    wavedirs st !! c = Some dir ->
    num_slc st !! c = Some n ->
    0 <= n /\
    exists entries,
      fs st !! dir = Some entries /\
      List.filter is_tiff_name entries ≡ₚ names_from 0 (Z.to_nat n).

(** [numbered] is kept from one state to another. *)
Definition keeps_numbered (st st' : state) : Prop := numbered st -> numbered st'.




(** Two configurations that differ at most in [max_dset_size]. *)
Definition same_but_budget (cfg1 cfg2 : config) : Prop :=
  wv cfg1 = wv cfg2 /\ outdir cfg1 = outdir cfg2 /\
  ch_first cfg1 = ch_first cfg2 /\ obj cfg1 = obj cfg2 /\
  bg_lvl cfg1 = bg_lvl cfg2 /\ bg_rel_thr cfg1 = bg_rel_thr cfg2 /\
  mean_rel_thr cfg1 = mean_rel_thr cfg2 /\
  z_strd_um cfg1 = z_strd_um cfg2 /\ px_sz_z cfg1 = px_sz_z cfg2 /\
  x_shp_out cfg1 = x_shp_out cfg2.

End Props.

(** ** The notebook that averages a model along x *)

Module ModelPrep.

(** A two-dimensional array of floats: its shape and its rows. An element
    is a rational or [nan] ([None]). *)
Record array2 : Type := mk_array2 {
  nrow : nat;
  ncol : nat;
  rows : list (list (option Q))
}.

(** [np.swapaxes(v, 0, 1)] *)
Definition swapaxes (v : array2) : array2 :=
  mk_array2 (ncol v) (nrow v)
    ((fun j => (fun row => default None (row !! j)) <$> rows v) <$> seq 0 (ncol v)).

(** [v[:, crop_s:crop_e]], for bounds that are not negative. *)
Definition crop_line (crop_s crop_e : nat) (line : list (option Q))
  : list (option Q) :=
  take (crop_e - crop_s) (drop crop_s line).

Definition crop (crop_s crop_e : nat) (v : array2) : array2 :=
  mk_array2 (nrow v) (Nat.min crop_e (ncol v) - Nat.min crop_s (ncol v))
    (crop_line crop_s crop_e <$> rows v).

(** [np.mean] of one line: [nan] for an empty line and for a line that
    holds a [nan]. *)
Definition mean_line (line : list (option Q)) : option Q :=
  mapM id line ≫= Np.mean.

(** [np.repeat(np.mean(v, axis=1)[:, np.newaxis], n, axis=1)] *)
Definition repeat_mean (n : nat) (v : array2) : array2 :=
  mk_array2 (nrow v) n ((fun row => replicate n (mean_line row)) <$> rows v).

(** The cells from "View flat-field model" to "Average and replicate along
    horizontal x-axis", for one of the two arrays [v] and [z]. *)
Definition average_along_x (crop_s crop_e : nat) (v : array2) : array2 :=
  let tall := (ncol v <? nrow v)%nat in
  let v1 := if tall then swapaxes v else v in
  let v2 := crop crop_s crop_e v1 in
  let v3 := repeat_mean (Nat.max (nrow v) (ncol v)) v2 in
  if tall then swapaxes v3 else v3.

(** The rows of an array are as its shape says. *)
Definition well_shaped (v : array2) : Prop :=
  length (rows v) = nrow v /\ Forall (fun row => length row = ncol v) (rows v).

(** The element at row [i] and column [j]. *)
Definition entry (v : array2) (i j : nat) : option (option Q) :=
  rows v !! i ≫= fun row => row !! j.

(** The line through [(i, j)] along the longer axis of the array: row [i]
    of a wide array, column [j] of a tall one. *)
Definition long_line (v : array2) (i j : nat) : list (option Q) :=
  if (ncol v <? nrow v)%nat
  then (fun row => default None (row !! j)) <$> rows v
  else default [] (rows v !! i).

(** A wide model, 2 x 4, and a tall one, 3 x 2. *)
Definition wide_model : array2 :=
  mk_array2 2 4
    [[Some 1; Some 2; Some 3; Some 4]; [Some 10; Some 20; Some 30; Some 40]]%Q.
Definition tall_model : array2 :=
  mk_array2 3 2 [[Some 1; Some 10]; [Some 3; Some 30]; [Some 5; Some 50]]%Q.

End ModelPrep.

(** ** Further sample inputs *)

Module Sample2.
Import Np Curator.

(** A sentinel entry before an exported channel. *)
Definition cfg_sentinel : config :=
  mk_config [-1; 488] "out" true "obj" 1 (1 # 2) (5 # 1000) 8 1 1 None.

(** The state after the I/O cell for [cfg_sentinel]. *)
Definition st_sentinel : state :=
  mk_state [0; 0] [0; 0] ["out/obj_488nm"%string]
    {[ "out/obj_488nm"%string := [] ]} [].

(** Two wavelengths, and a file system on which the first has its
    folder: two TIFF files among its five entries. *)
Definition cfg_resume : config :=
  mk_config [638; 488] "out" true "obj" 1 (1 # 2) (5 # 1000) 8 1 1 None.
Definition fs_resume : gmap string (list string) :=
  {[ "out"%string := ["obj_638nm"; "readme.txt"]%string;
     "out/obj_638nm"%string
       := ["0.tiff"; "1.TIF"; "notes.txt"; ".tiff"; "2.tiff.bak"]%string ]}.

(** An output directory two levels below the current one. *)
Definition cfg_deep : config :=
  mk_config [638] "data/out" true "obj" 1 (1 # 2) (5 # 1000) 8 1 1 None.

(** A stride of 17 um on slices of 3.4 um, and one of 2.1 um on slices
    of 0.3 um. *)
Definition cfg_stride : config :=
  mk_config [638] "out" true "obj" 1 (1 # 2) (5 # 1000) 8 17 (34 # 10) None.
Definition cfg_tenths : config :=
  mk_config [638] "out" true "obj" 1 (1 # 2) (5 # 1000) 8 (21 # 10) (3 # 10) None.

(** A budget of a hundred gigabytes. *)
Definition cfg_large : config :=
  mk_config [638] "out" true "obj" 1 (1 # 2) (5 # 1000) 100000000000 1 1 None.

(** Source entries as [glob] gives them. *)
Definition entries_src : list (string * bool) :=
  [("src/a_l.tiff", true); ("src/b_L.TIFF", true); ("src/c_r.tiff", true);
   ("src/d_l.tiff", false)]%string.

(** The two channels of a stack at one depth, (C, Y, X), and the plane of
    the second one. *)
Definition volume_two : ndarray :=
  Sample.uint16 [2; 2; 2]%nat [901; 902; 903; 904; 801; 802; 803; 804].
Definition plane_second : ndarray :=
  Sample.uint16 [2; 2]%nat [801; 802; 803; 804].

(** The state after the I/O cell for [Sample.cfg_skip]. *)
Definition st_skip : state :=
  mk_state [0; 0] [0; 0] ["out/obj_638nm"; "out/obj_0nm"]%string
    {[ "out/obj_638nm"%string := []; "out/obj_0nm"%string := [] ]} [].

End Sample2.

(** The criteria on a concrete frame, by computation. *)
Ltac criteria_computed :=
  split; [vm_compute; reflexivity|];
  split; [vm_compute; discriminate|vm_compute; reflexivity].


(** Unfolding of the monad's operations. *)
Ltac run_monad :=
  unfold Curator.bind, Curator.lift, Curator.ret, Curator.gets,
    Curator.modify, Curator.raise, getitem in *;
  simpl in *.

(** * Properties of the embedding *)

(** ** Comparisons and the inclusion test *)

Section InclusionTest.
Import Np Curator Spec.

Lemma Qlt_bool_iff (x y : Q) : Qlt_bool x y = true <-> (x < y)%Q.
Proof.
  unfold Qlt_bool. rewrite negb_true_iff. split.
  - intros H. apply Qnot_le_lt. intros Hle.
    apply Qle_bool_iff in Hle. congruence.
  - intros H. destruct (Qle_bool y x) eqn:E; [|reflexivity].
    apply Qle_bool_iff in E. apply Qlt_not_le in H. contradiction.
Qed.

Lemma fgt_iff (a b : float) : fgt a b = true <-> float_lt b a.
Proof.
  destruct a as [x|s|], b as [y|s'|]; simpl;
    try (split; [discriminate|contradiction]).
  - apply Qlt_bool_iff.
  - reflexivity.
  - destruct s; simpl; split; congruence.
  - destruct s, s'; simpl; split; try discriminate; try tauto;
      intros [H1 H2]; discriminate.
Qed.

Lemma above_fgt (level : float) (x : Q) : above level x = fgt (Fin x) level.
Proof.
  destruct level as [t|s|]; simpl; try reflexivity.
  destruct (Qlt_bool t x) eqn:E.
  - apply Qlt_bool_iff in E. apply Qgt_alt in E. rewrite E. reflexivity.
  - destruct (x ?= t)%Q eqn:C; try reflexivity.
    apply Qgt_alt in C. apply Qlt_bool_iff in C. congruence.
Qed.

(** The counts and the sum that the cell obtains from NumPy are those of
    the pixels themselves. *)
Lemma pixels_above_count (level : float) (slc : ndarray) :
  pixels_above level (data slc) = Z.of_nat (count_above level slc).
Proof.
  unfold count_above. induction (data slc) as [|x l IH]; [reflexivity|].
  cbn [pixels_above List.filter]. rewrite IH, above_fgt.
  destruct (fgt (Fin x) level); [rewrite length_cons|]; lia.
Qed.

Lemma pixel_number_size (slc : ndarray) : pixel_number slc = Z.of_nat (size slc).
Proof.
  unfold pixel_number, size, prod.
  induction (shape slc) as [|n l IH]; [reflexivity|].
  cbn [foldr]. rewrite IH. lia.
Qed.

Lemma compare_zero (x : Q) : Qeq_bool x 0 = true <-> (x ?= 0)%Q = Eq.
Proof. rewrite Qeq_bool_iff. apply Qeq_alt. Qed.

Lemma nonzero_number_length (slc : ndarray) :
  nonzero_number (data slc) = Z.of_nat (length (nonzero slc)).
Proof.
  unfold nonzero. induction (data slc) as [|x l IH]; [reflexivity|].
  cbn [nonzero_number List.filter].
  destruct (Qeq_bool x 0) eqn:E; cbn [negb].
  - apply compare_zero in E. rewrite E. exact IH.
  - rewrite length_cons, Nat2Z.inj_succ, <- IH.
    destruct (x ?= 0)%Q eqn:C; [|lia|lia].
    apply compare_zero in C. congruence.
Qed.

Lemma nonzero_total_sum (slc : ndarray) :
  nonzero_total (data slc) = Qsum (nonzero slc).
Proof.
  unfold nonzero, Qsum. induction (data slc) as [|x l IH]; [reflexivity|].
  cbn [nonzero_total List.filter].
  destruct (Qeq_bool x 0) eqn:E; cbn [negb foldr].
  - apply compare_zero in E. rewrite E. exact IH.
  - rewrite <- IH.
    destruct (x ?= 0)%Q eqn:C; [|reflexivity|reflexivity].
    apply compare_zero in C. congruence.
Qed.

(** On a slice with at least one pixel the test returns, and it returns
    [True] exactly when both criteria hold. *)
Lemma inclusion_test_spec (cfg : config) (img_max : Z) (slc : ndarray) :
  size slc <> 0%nat ->
  exists b, inclusion_test cfg img_max slc = Ok b /\
            (b = true <-> criteria_hold cfg img_max slc).
Proof.
  intros Hsz. unfold inclusion_test, criteria_hold, bg_fraction, mean_threshold.
  destruct (Nat.eqb_spec (size slc) 0) as [|_]; [contradiction|].
  rewrite pixels_above_count, pixel_number_size, nonzero_number_length,
    nonzero_total_sum.
  destruct (fgt _ (round64 (bg_rel_thr cfg))) eqn:E.
  - apply fgt_iff in E. eexists; split; [reflexivity|].
    destruct (nonzero slc) as [|x l] eqn:Enz.
    + simpl. split; [discriminate|]. intros (_ & H & _). contradiction.
    + unfold fmean. rewrite fgt_iff. split.
      * intros H. split; [exact E|]. split; [simpl length; lia|exact H].
      * intros (_ & _ & H). exact H.
  - exists false; split; [reflexivity|]. split; [discriminate|].
    intros [H _]. apply fgt_iff in H. congruence.
Qed.

Lemma nonzero_all_zero (slc : ndarray) :
  Forall (fun x => (x == 0)%Q) (data slc) -> nonzero slc = [].
Proof.
  unfold nonzero. induction 1 as [|x l Hx _ IH]; simpl; [reflexivity|].
  apply Qeq_bool_iff in Hx. rewrite Hx. simpl. exact IH.
Qed.

(** A slice without a non-zero pixel fails the test, without an error. *)
Lemma inclusion_test_all_zero (cfg : config) (img_max : Z) (slc : ndarray) :
  size slc <> 0%nat ->
  Forall (fun x => (x == 0)%Q) (data slc) ->
  inclusion_test cfg img_max slc = Ok false.
Proof.
  intros Hsz Hz. unfold inclusion_test.
  destruct (Nat.eqb_spec (size slc) 0) as [|_]; [contradiction|].
  rewrite (nonzero_all_zero _ Hz). simpl.
  destruct (fgt _ _); reflexivity.
Qed.

End InclusionTest.

(** ** One iteration of the channel loop *)

Section ChannelBody.
Import Np Curator Spec.
Variable interp : ndarray -> list nat -> list Q.
Variable cfg : config.

(** What [resize] returns for a two-dimensional slice. *)
Lemma resize_2d (plane : ndarray) (h0 w0 x : nat) :
  shape plane = [h0; w0] ->
  Skimage.resize interp plane h0 x
  = Ok (mk_ndarray (Skimage.convert_to_float (dtype plane)) [h0; x]
          (interp plane [h0; x])).
Proof.
  intros Hs. unfold Skimage.resize, ndim. rewrite Hs. reflexivity.
Qed.

Lemma export_slice_2d (c : nat) (plane : ndarray) (st : state)
    (dir : string) (n d : Z) (entries : list string) :
  ndim plane = 2%nat ->
  wavedirs st !! c = Some dir ->
  fs st !! dir = Some entries ->
  num_slc st !! c = Some n ->
  ds_size st !! c = Some d ->
  export_slice interp cfg c plane st
  = (state_out st c dir n d entries (image_out interp cfg plane),
     Ok (image_out interp cfg plane)).
Proof.
  intros Hnd Hw Hfs Hn Hd.
  assert (exists h0 w0, shape plane = [h0; w0]) as (h0 & w0 & Hs).
  { unfold ndim in Hnd. destruct (shape plane) as [|a [|b [|? ?]]]; try discriminate.
    eauto. }
  unfold export_slice, imwrite, image_out, shape_at.
  destruct (x_shp_out cfg) as [x|]; run_monad.
  - rewrite Hs. simpl. rewrite (resize_2d plane h0 w0 x Hs). simpl.
    repeat (rewrite ?Hw, ?Hn, ?Hfs, ?Hd; simpl). reflexivity.
  - repeat (rewrite ?Hw, ?Hn, ?Hfs, ?Hd; simpl). reflexivity.
Qed.


(** C10: a channel whose wavelength entry is not strictly positive (the
    sentinel -1, 0, or any other non-positive value) is skipped by the
    guard [wv[c] > 0]: the iteration ends in the state it started from
    (no call of [imwrite], no counter or byte total of any channel
    changed), with [slc] as it was and without [break]. *)
Theorem C10_non_positive_wavelength_skipped
    (img_max : Z) (c : nat) (w : Z) (slc : ndarray) (st : state) :
  wv cfg !! c = Some w ->
  w <= 0 ->
  channel_body interp cfg img_max c slc st = (st, Ok (slc, false)).
Proof.
  intros Hw Hle. unfold channel_body. run_monad. rewrite Hw. simpl.
  destruct (Z.ltb_spec 0 w) as [Hlt|_]; [lia|reflexivity].
Qed.

(** C9: for a slice with no non-zero pixel (and at least one pixel) the
    inclusion test returns [False] without an error: either the
    background fraction already fails, or the mean of the empty set of
    non-zero pixels is [nan] and [nan > t] is false. The iteration
    returns normally and leaves the state as it was. *)
Theorem C9_all_zero_slice_rejected
    (img_max : Z) (c : nat) (w : Z) (slc plane : ndarray) (st : state) :
  wv cfg !! c = Some w ->
  0 < w ->
  (if ch_first cfg then getitem_first_2d slc c else getitem_last slc c)
    = Ok plane ->
  size plane <> 0%nat ->
  Forall (fun x => (x == 0)%Q) (data plane) ->
  inclusion_test cfg img_max plane = Ok false /\
  channel_body interp cfg img_max c slc st
    = (st, Ok (plane, size_reached cfg st)).
Proof.
  intros Hw Hpos Hsel Hsz Hzero.
  pose proof (inclusion_test_all_zero cfg img_max plane Hsz Hzero) as Ht.
  split; [exact Ht|].
  unfold channel_body. run_monad. rewrite Hw. simpl.
  destruct (Z.ltb_spec 0 w) as [_|Hge]; [|lia].
  rewrite Hsel. simpl. rewrite Ht. reflexivity.
Qed.

(** The iteration on a two-dimensional slice with at least one pixel, for
    a channel that is exported: it returns, and the outcome of the
    inclusion test decides between the export and no change at all. *)
Lemma channel_body_2d
    (img_max : Z) (c : nat) (w : Z) (slc plane : ndarray) (st : state)
    (dir : string) (n d : Z) (entries : list string) (b : bool) :
  wv cfg !! c = Some w ->
  0 < w ->
  (if ch_first cfg then getitem_first_2d slc c else getitem_last slc c)
    = Ok plane ->
  ndim plane = 2%nat ->
  wavedirs st !! c = Some dir ->
  fs st !! dir = Some entries ->
  num_slc st !! c = Some n ->
  ds_size st !! c = Some d ->
  inclusion_test cfg img_max plane = Ok b ->
  channel_body interp cfg img_max c slc st
  = if b
    then
      let st' := state_out st c dir n d entries (image_out interp cfg plane) in
      (st', Ok (image_out interp cfg plane, size_reached cfg st'))
    else (st, Ok (plane, size_reached cfg st)).
Proof.
  intros Hw Hpos Hsel Hnd Hdir Hfs Hn Hd Ht.
  unfold channel_body.
  unfold bind at 1. unfold lift at 1. unfold getitem. rewrite Hw.
  destruct (Z.ltb_spec 0 w) as [_|Hge]; [|lia].
  unfold bind at 1. unfold lift at 1. rewrite Hsel.
  unfold bind at 1. unfold lift at 1. rewrite Ht.
  unfold bind at 1. destruct b.
  - rewrite (export_slice_2d c plane st dir n d entries Hnd Hdir Hfs Hn Hd).
    reflexivity.
  - reflexivity.
Qed.


End ChannelBody.


(** *** The iteration on sample slices *)

Section ChannelBodySamples.
Import Np Curator Spec Sample.

Lemma C10_witness :
  wv cfg_skip !! 1%nat = Some 0 /\
  channel_body flat_interp cfg_skip 65535 1 stack_two st_one
  = (st_one, Ok (stack_two, false)).
Proof.
  split; [reflexivity|].
  apply (C10_non_positive_wavelength_skipped flat_interp cfg_skip 65535 1 0);
    [reflexivity | lia].
Defined.

Lemma C9_witness :
  inclusion_test cfg_one 65535 plane_dark = Ok false /\
  channel_body flat_interp cfg_one 65535 0 (newaxis_first plane_dark) st_one
  = (st_one, Ok (plane_dark, size_reached cfg_one st_one)).
Proof.
  apply (C9_all_zero_slice_rejected flat_interp cfg_one 65535 0 638).
  - reflexivity.
  - lia.
  - reflexivity.
  - vm_compute. discriminate.
  - repeat constructor.
Defined.



(** The rounding on the other side of the test: a mean of 153/5 against
    the threshold 0.12 on an 8-bit stack. The product of the double 0.12
    and 255 is the double below 30.6, the mean is the double nearest to
    30.6, and the frame passes. *)
Example inclusion_test_rounds_product :
  inclusion_test cfg_twelve 255 plane_fifths = Ok true /\
  ~ criteria_exact cfg_twelve 255 plane_fifths.
Proof.
  split; [vm_compute; reflexivity|].
  intros (_ & _ & H). vm_compute in H. discriminate.
Qed.

(** The doubles that the two boundary cases meet. *)
Example round64_samples :
  round64 (1 # 3) = Fin (6004799503160661 # 18014398509481984) /\
  round64 (3333333333333333 # 10000000000000000)
  = Fin (6004799503160661 # 18014398509481984) /\
  round64 (153 # 5) = Fin (8613134287346074 # 281474976710656) /\
  fmul (round64 (12 # 100)) (Fin 255)
  = Fin (8613134287346073 # 281474976710656).
Proof. vm_compute. repeat split. Qed.

End ChannelBodySamples.

(** ** Paths and folders *)

Section Paths.
Import Np Curator Spec.

Lemma length_append (s t : string) :
  String.length (s +:+ t) = (String.length s + String.length t)%nat.
Proof. induction s as [|a s IH]; simpl; [reflexivity|]. rewrite IH. reflexivity. Qed.

Lemma append_nil (t : string) : (EmptyString +:+ t)%string = t.
Proof. reflexivity. Qed.

Lemma append_cons (a : Ascii.ascii) (s t : string) :
  (String a s +:+ t)%string = String a (s +:+ t).
Proof. reflexivity. Qed.

Lemma append_assoc (s t u : string) : ((s +:+ t) +:+ u = s +:+ (t +:+ u))%string.
Proof.
  induction s as [|a s IH]; [reflexivity|].
  rewrite !append_cons, IH. reflexivity.
Qed.

Lemma length_substring_0 (s : string) :
  forall i : nat, (i <= String.length s)%nat ->
  String.length (String.substring 0 i s) = i.
Proof.
  induction s as [|a s IH]; intros [|i] Hi; simpl in *; try reflexivity; try lia.
  rewrite IH by lia. reflexivity.
Qed.

Lemma rfind_slash_lt (s : string) :
  forall i, Pathlib.rfind_slash s = Some i -> (i < String.length s)%nat.
Proof.
  induction s as [|a s IH]; simpl; [discriminate|]. intros i.
  destruct (Pathlib.rfind_slash s) as [j|].
  - intros [= <-]. specialize (IH j eq_refl). lia.
  - destruct (Ascii.eqb a "/"); [|discriminate]. intros [= <-]. lia.
Qed.

Lemma rfind_slash_app (s t : string) :
  Pathlib.rfind_slash (s +:+ t)
  = match Pathlib.rfind_slash t with
    | Some j => Some (String.length s + j)%nat
    | None => Pathlib.rfind_slash s
    end.
Proof.
  induction s as [|a s IH].
  - rewrite append_nil. destruct (Pathlib.rfind_slash t); reflexivity.
  - rewrite append_cons. simpl. rewrite IH.
    destruct (Pathlib.rfind_slash t); reflexivity.
Qed.

Lemma rfind_slash_digits (d : Decimal.uint) :
  Pathlib.rfind_slash (NilEmpty.string_of_uint d) = None.
Proof. induction d; simpl; rewrite ?IHd; reflexivity. Qed.

Lemma rfind_slash_str (n : Z) : Pathlib.rfind_slash (Pathlib.str n) = None.
Proof.
  unfold Pathlib.str, NilZero.string_of_int, NilZero.string_of_uint.
  destruct (Z.to_int n) as [d|d].
  - destruct d; try reflexivity; apply rfind_slash_digits.
  - cbn [Pathlib.rfind_slash].
    assert (H : Pathlib.rfind_slash
                  match d with
                  | Decimal.Nil => "0"%string
                  | _ => NilEmpty.string_of_uint d
                  end = None).
    { destruct d; try reflexivity; apply rfind_slash_digits. }
    rewrite H. reflexivity.
Qed.

(** The parent of a path is the current directory, the root, or a
    shorter path. *)
Lemma parent_length (p : string) :
  (String.length (Pathlib.parent p) <= Nat.max 1 (String.length p - 1))%nat.
Proof.
  unfold Pathlib.parent.
  destruct (Pathlib.rfind_slash p) as [[|i]|] eqn:E; simpl; try lia.
  apply rfind_slash_lt in E.
  change (String.length (String.substring 0 (S i) p) <= Nat.max 1 (String.length p - 1))%nat.
  rewrite length_substring_0 by lia. lia.
Qed.

Lemma is_anchor_length (p : string) :
  is_anchor p = true -> String.length p = 1%nat.
Proof.
  unfold is_anchor. intros H. apply orb_true_iff in H as [H|H];
    apply String.eqb_eq in H; subst p; reflexivity.
Qed.

(** The folder of a wavelength, split after the name of the objective:
    what follows holds no ['/']. *)
Lemma wavedir_of_split (cfg : config) (w : Z) :
  wavedir_of cfg w
  = ((outdir cfg +:+ "/" +:+ obj cfg) +:+ ("_" +:+ Pathlib.str w +:+ "nm"))%string.
Proof.
  unfold wavedir_of, Pathlib.joinpath. rewrite !append_assoc. reflexivity.
Qed.

Lemma wavedir_length (cfg : config) (w : Z) :
  (String.length (outdir cfg +:+ "/" +:+ obj cfg) + 3
   <= String.length (wavedir_of cfg w))%nat.
Proof.
  rewrite wavedir_of_split, !length_append. simpl. lia.
Qed.

Lemma parent_wavedir_short (cfg : config) (w : Z) :
  (String.length (Pathlib.parent (wavedir_of cfg w))
   <= String.length (outdir cfg +:+ "/" +:+ obj cfg))%nat.
Proof.
  assert (Hbase : exists i, Pathlib.rfind_slash (outdir cfg +:+ "/" +:+ obj cfg) = Some i).
  { rewrite rfind_slash_app, append_cons, append_nil. simpl.
    destruct (Pathlib.rfind_slash (obj cfg)); eauto. }
  destruct Hbase as [i Hi].
  assert (Htail : Pathlib.rfind_slash ("_" +:+ Pathlib.str w +:+ "nm") = None).
  { rewrite append_cons, append_nil. simpl.
    rewrite rfind_slash_app, rfind_slash_str. reflexivity. }
  pose proof (rfind_slash_lt _ _ Hi) as Hlt.
  pose proof (wavedir_length cfg w) as Hlen.
  unfold Pathlib.parent. rewrite wavedir_of_split at 1.
  rewrite rfind_slash_app, Htail, Hi.
  destruct i as [|i]; [simpl; lia|].
  rewrite length_substring_0 by lia. lia.
Qed.

(** The folder of a wavelength is no ancestor of the folder of another
    one: it is longer than the parent of any of them. *)
Lemma wavedir_longer (cfg : config) (w1 w2 : Z) :
  (String.length (Pathlib.parent (wavedir_of cfg w2))
   < String.length (wavedir_of cfg w1))%nat /\
  (1 < String.length (wavedir_of cfg w1))%nat.
Proof.
  pose proof (parent_wavedir_short cfg w2).
  pose proof (wavedir_length cfg w1). lia.
Qed.

End Paths.

(** ** The I/O cell *)

Section IoCell.
Import Np Curator Spec.
Variable cfg : config.
Arguments mkdir : simpl never.

Lemma lookup_add_entry_ne (dir name : string) (m : gmap string (list string))
    (d : string) :
  dir <> d -> add_entry dir name m !! d = m !! d.
Proof. intros H. unfold add_entry. apply lookup_insert_ne, H. Qed.

Lemma lookup_add_entry_grows (dir name : string) (m : gmap string (list string))
    (d : string) (entries : list string) :
  m !! d = Some entries ->
  exists added, add_entry dir name m !! d = Some (entries ++ added).
Proof.
  intros H. unfold add_entry.
  destruct (decide (dir = d)) as [->|Hne].
  - rewrite lookup_insert_eq, H. simpl.
    destruct (bool_decide (name ∈ entries)).
    + exists []. rewrite app_nil_r. reflexivity.
    + exists [name]. reflexivity.
  - rewrite lookup_insert_ne by exact Hne. exists []. rewrite app_nil_r. exact H.
Qed.

(** A folder that does not exist is not its own parent. *)
Lemma parent_neq (m : gmap string (list string)) (p : string) :
  is_dir m p = false -> Pathlib.parent p <> p.
Proof.
  intros Hd Heq. pose proof (parent_length p) as Hlen. rewrite Heq in Hlen.
  unfold is_dir in Hd. apply orb_false_iff in Hd as [Ha _].
  destruct p as [|a [|b p]]; simpl in Hlen; try lia.
  - discriminate Heq.
  - unfold Pathlib.parent in Heq. simpl in Heq.
    destruct (Ascii.eqb a "/") eqn:E.
    + injection Heq as <-. discriminate Ha.
    + injection Heq as <-. discriminate Ha.
Qed.

(** [mkdir] touches the folder it makes and ancestors of it, nothing
    else: a path longer than the parent is neither. *)
Lemma mkdir_parents_frame (d : string) :
  (1 < String.length d)%nat ->
  forall (fuel : nat) (p : string) (m : gmap string (list string)),
    d <> p ->
    (String.length (Pathlib.parent p) < String.length d)%nat ->
    mkdir_parents fuel p m !! d = m !! d.
Proof.
  intros Hd. induction fuel as [|k IH]; intros p m Hne Hlen; simpl.
  - destruct (is_dir m p); reflexivity.
  - destruct (is_dir m p); [reflexivity|].
    rewrite lookup_add_entry_ne by (intros H; rewrite H in Hlen; lia).
    rewrite lookup_insert_ne by congruence.
    apply IH.
    + intros H. rewrite <- H in Hlen. lia.
    + pose proof (parent_length (Pathlib.parent p)). lia.
Qed.

(** The folder made is empty. *)
Lemma mkdir_parents_new (fuel : nat) (p : string) (m : gmap string (list string)) :
  is_dir m p = false -> mkdir_parents (S fuel) p m !! p = Some [].
Proof.
  intros Hd. simpl. rewrite Hd.
  rewrite lookup_add_entry_ne by exact (parent_neq m p Hd).
  apply lookup_insert_eq.
Qed.

(** No folder loses an entry. *)
Lemma mkdir_parents_grows (d : string) (entries : list string) :
  forall (fuel : nat) (p : string) (m : gmap string (list string)),
    m !! d = Some entries ->
    exists added, mkdir_parents fuel p m !! d = Some (entries ++ added).
Proof.
  induction fuel as [|k IH]; intros p m Hm; simpl.
  - exists []. rewrite app_nil_r. destruct (is_dir m p); exact Hm.
  - destruct (is_dir m p) eqn:Hd.
    { exists []. rewrite app_nil_r. exact Hm. }
    destruct (IH (Pathlib.parent p) m Hm) as [a1 H1].
    assert (Hne : p <> d).
    { intros ->. unfold is_dir in Hd. apply orb_false_iff in Hd as [_ Hd].
      apply bool_decide_eq_false in Hd. apply Hd. eauto. }
    destruct (lookup_add_entry_grows (Pathlib.parent p) (Pathlib.name p)
                (<[p := []]> (mkdir_parents k (Pathlib.parent p) m)) d
                (entries ++ a1)) as [a2 H2].
    { rewrite lookup_insert_ne by exact Hne. exact H1. }
    exists (a1 ++ a2). rewrite app_assoc. exact H2.
Qed.

Lemma wavedir_not_dir (w : Z) (m : gmap string (list string)) :
  m !! wavedir_of cfg w = None -> is_dir m (wavedir_of cfg w) = false.
Proof.
  intros H. unfold is_dir. rewrite H. apply orb_false_iff. split.
  - destruct (is_anchor (wavedir_of cfg w)) eqn:E; [|reflexivity].
    apply is_anchor_length in E.
    pose proof (wavedir_longer cfg w w). lia.
  - apply bool_decide_eq_false. intros [x Hx]. discriminate.
Qed.

(** Making the folder of a wavelength that has none: the folder is there,
    empty, and the folders of the other wavelengths are as they were. *)
Lemma mkdir_wavedir (w : Z) (m : gmap string (list string)) :
  m !! wavedir_of cfg w = None ->
  mkdir (wavedir_of cfg w) m !! wavedir_of cfg w = Some [] /\
  forall w', wavedir_of cfg w' <> wavedir_of cfg w ->
    mkdir (wavedir_of cfg w) m !! wavedir_of cfg w' = m !! wavedir_of cfg w'.
Proof.
  intros H. unfold mkdir. split.
  - pose proof (wavedir_longer cfg w w) as [_ Hl].
    destruct (String.length (wavedir_of cfg w)) as [|k]; [lia|].
    apply mkdir_parents_new, wavedir_not_dir, H.
  - intros w' Hne. destruct (wavedir_longer cfg w' w) as [H1 H2].
    apply mkdir_parents_frame; assumption.
Qed.

Lemma io_body_spec (fs0 : gmap string (list string)) (len c : nat) (w : Z)
    (st : state) :
  io_inv cfg fs0 len c st ->
  (c < len)%nat ->
  let st' := fst (io_body cfg c w st) in
  snd (io_body cfg c w st) = Ok tt /\
  io_inv cfg fs0 len (S c) st' /\
  written st' = written st /\
  (forall c', (c' < c)%nat -> num_slc st' !! c' = num_slc st !! c') /\
  (w <> -1 -> num_slc st' !! c = Some (fs_count fs0 (wavedir_of cfg w))) /\
  wavedirs st' = wavedirs st ++ (if w =? -1 then [] else [wavedir_of cfg w]) /\
  (forall d, is_Some (fs st !! d) -> is_Some (fs st' !! d)) /\
  (w <> -1 -> is_Some (fs st' !! wavedir_of cfg w)).
Proof.
  intros (Hlen & Hkept & Hzero) Hc. unfold io_body.
  destruct (Z.eqb_spec w (-1)) as [->|Hw].
  - run_monad. rewrite app_nil_r.
    repeat split; try done.
    intros c' Hc'. apply Hzero. lia.
  - run_monad. destruct (fs st !! wavedir_of cfg w) as [entries|] eqn:E; simpl.
    + assert (Hcount : count_tiff entries = fs_count fs0 (wavedir_of cfg w)).
      { unfold fs_count. specialize (Hkept w).
        destruct (fs0 !! wavedir_of cfg w).
        - congruence.
        - destruct Hkept as [H|H]; [congruence|].
          assert (entries = []) as -> by congruence. reflexivity. }
      repeat split; simpl; try done.
      * rewrite length_insert. exact Hlen.
      * intros c' Hc'. rewrite list_lookup_insert_ne by lia. apply Hzero. lia.
      * intros c' Hc'. rewrite list_lookup_insert_ne by lia. reflexivity.
      * intros _. rewrite list_lookup_insert_eq by lia. rewrite Hcount. reflexivity.
    + destruct (mkdir_wavedir w (fs st) E) as [Hnew Hframe].
      assert (Hnone : fs0 !! wavedir_of cfg w = None).
      { specialize (Hkept w). destruct (fs0 !! wavedir_of cfg w); congruence. }
      repeat split; simpl; try done.
      * intros w'. specialize (Hkept w'). simpl.
        destruct (decide (wavedir_of cfg w' = wavedir_of cfg w)) as [Heq|Hne].
        -- rewrite Heq, Hnone. right. exact Hnew.
        -- rewrite (Hframe w' Hne). exact Hkept.
      * intros c' Hc'. apply Hzero. lia.
      * intros _. rewrite Hzero by lia. unfold fs_count. rewrite Hnone. reflexivity.
      * intros d [x Hd].
        destruct (mkdir_parents_grows d x (String.length (wavedir_of cfg w))
                    (wavedir_of cfg w) (fs st) Hd) as [a Ha].
        unfold mkdir. rewrite Ha. eauto.
Qed.

Lemma io_loop_spec (fs0 : gmap string (list string)) (ws : list Z) :
  forall (c0 : nat) (st : state) (len : nat),
  io_inv cfg fs0 len c0 st ->
  (c0 + length ws = len)%nat ->
  let st' := fst (io_loop cfg c0 ws st) in
  snd (io_loop cfg c0 ws st) = Ok tt /\
  length (num_slc st') = len /\
  written st' = written st /\
  (forall c', (c' < c0)%nat -> num_slc st' !! c' = num_slc st !! c') /\
  (forall i w, ws !! i = Some w -> w <> -1 ->
     num_slc st' !! (c0 + i)%nat = Some (fs_count fs0 (wavedir_of cfg w))) /\
  wavedirs st'
  = wavedirs st
    ++ (wavedir_of cfg <$> List.filter (fun w => negb (w =? -1)) ws) /\
  (forall d, is_Some (fs st !! d) -> is_Some (fs st' !! d)) /\
  (forall w, w ∈ ws -> w <> -1 -> is_Some (fs st' !! wavedir_of cfg w)) /\
  folders_kept cfg fs0 st'.
Proof.
  induction ws as [|w ws' IH]; intros c0 st len Hinv Hlen.
  - simpl. destruct Hinv as (Hl & Hk & _).
    rewrite app_nil_r. repeat split; try done.
    intros w Hin. apply elem_of_nil in Hin. contradiction.
  - simpl in Hlen.
    pose proof (io_body_spec fs0 len c0 w st Hinv ltac:(lia)) as Hbody.
    destruct (io_body cfg c0 w st) as [st1 r1] eqn:Ebody. simpl in Hbody.
    destruct Hbody as (Hok & Hinv1 & Hwr1 & Hlow1 & Hset1 & Hdirs1 & Hkeep1 & Hmk1).
    subst r1.
    assert (Heq : io_loop cfg c0 (w :: ws') st = io_loop cfg (S c0) ws' st1).
    { simpl. unfold bind. rewrite Ebody. reflexivity. }
    rewrite Heq. clear Heq.
    destruct (IH (S c0) st1 len Hinv1 ltac:(lia))
      as (Hok2 & Hl2 & Hwr2 & Hlow2 & Hset2 & Hdirs2 & Hkeep2 & Hmk2 & Hk2).
    repeat split.
    + exact Hok2.
    + exact Hl2.
    + congruence.
    + intros c' Hc'. rewrite Hlow2 by lia. apply Hlow1. exact Hc'.
    + intros [|i] w' Hi Hw'; simpl in Hi.
      * injection Hi as ->. rewrite Nat.add_0_r.
        rewrite Hlow2 by lia. apply Hset1. exact Hw'.
      * replace (c0 + S i)%nat with (S c0 + i)%nat by lia.
        apply Hset2; assumption.
    + rewrite Hdirs2, Hdirs1. simpl.
      destruct (w =? -1); simpl; rewrite <- ?app_assoc; reflexivity.
    + intros d Hd. apply Hkeep2, Hkeep1, Hd.
    + intros w' Hin Hw'. apply elem_of_cons in Hin as [->|Hin].
      * apply Hkeep2, Hmk1, Hw'.
      * apply Hmk2; assumption.
    + exact Hk2.
Qed.

Lemma folders_kept_refl (st : state) : folders_kept cfg (fs st) st.
Proof. intros w. destruct (fs st !! wavedir_of cfg w); auto. Qed.

(** The cell as a whole: it returns; every counter of a channel other
    than the sentinel holds the number of TIFF files its folder had
    (zero for a folder that did not exist); [wavedirs] lists the folders
    of the non-sentinel entries, all of which exist afterwards; the
    folders that existed have the entries they had. *)
Lemma io_cell_spec (st : state) :
  let st' := fst (io_cell cfg st) in
  snd (io_cell cfg st) = Ok tt /\
  length (num_slc st') = length (wv cfg) /\
  written st' = written st /\
  (forall c w, wv cfg !! c = Some w -> w <> -1 ->
     num_slc st' !! c = Some (fs_count (fs st) (wavedir_of cfg w))) /\
  wavedirs st' = built_wavedirs cfg /\
  (forall w, w ∈ wv cfg -> w <> -1 -> is_Some (fs st' !! wavedir_of cfg w)) /\
  folders_kept cfg (fs st) st'.
Proof.
  unfold io_cell. unfold bind at 1. unfold modify at 1.
  unfold bind at 1. unfold modify at 1.
  set (st0 := set_wavedirs [] (set_num_slc (replicate (length (wv cfg)) 0) st)).
  assert (Hinv : io_inv cfg (fs st) (length (wv cfg)) 0 st0).
  { repeat split; simpl.
    - apply length_replicate.
    - exact (folders_kept_refl st).
    - intros c [_ Hc]. apply lookup_replicate_2. exact Hc. }
  destruct (io_loop_spec (fs st) (wv cfg) 0%nat st0 _ Hinv eq_refl)
    as (Hok & Hl & Hwr & _ & Hset & Hdirs & _ & Hmk & Hk).
  repeat split; assumption.
Qed.

End IoCell.

(** ** The names of TIFF files *)

Section TiffNames.
Import Np Curator Spec Props.


















End TiffNames.

(** ** Relations that every step of the export cell keeps *)

Section ExportSliceCases.
Import Np Curator Spec.
Variable interp : ndarray -> list nat -> list Q.
Variable cfg : config.

(** The statements under the inclusion test either raise before anything
    is written, or write one file and update the counter and the byte
    total of the channel. *)
Lemma export_slice_cases (c : nat) (slc : ndarray) (st : state) :
  arrays_ok st ->
  fst (export_slice interp cfg c slc st) = st \/
  exists img dir n d entries,
    wavedirs st !! c = Some dir /\
    fs st !! dir = Some entries /\
    num_slc st !! c = Some n /\
    ds_size st !! c = Some d /\
    export_slice interp cfg c slc st
    = (state_out st c dir n d entries img, Ok img).
Proof.
  intros Hok.
  destruct (export_slice interp cfg c slc st) as [st' r] eqn:E. simpl.
  unfold export_slice, imwrite, shape_at in E.
  assert (Hpre : exists r0 : result ndarray,
    match x_shp_out cfg with
    | Some x =>
        h <- lift (getitem (shape slc) 0) ;; lift (Skimage.resize interp slc h x)
    | None => ret slc
    end st = (st, r0)).
  { destruct (x_shp_out cfg) as [x|]; run_monad; [|eauto].
    destruct (shape slc !! 0%nat); simpl; eauto. }
  destruct Hpre as [r0 Hpre].
  unfold bind at 1 in E. rewrite Hpre in E. clear Hpre.
  destruct r0 as [img|e]; [|left; congruence].
  run_monad.
  destruct (wavedirs st !! c) as [dir|] eqn:Ew; simpl in E; [|left; congruence].
  destruct (num_slc st !! c) as [n|] eqn:En; simpl in E; [|left; congruence].
  destruct (fs st !! dir) as [entries|] eqn:Ef; simpl in E; [|left; congruence].
  assert (Hlt : (c < length (ds_size st))%nat).
  { rewrite <- Hok. eapply lookup_lt_Some; eauto. }
  destruct (lookup_lt_is_Some_2 _ _ Hlt) as [d Ed].
  rewrite Ed in E. simpl in E. rewrite En in E. simpl in E.
  right. exists img, dir, n, d, entries.
  split; [reflexivity|]. split; [exact Ef|]. split; [reflexivity|].
  split; [exact Ed|]. symmetry. exact E.
Qed.

End ExportSliceCases.

Section Preservation.
Import Np Curator Spec.
Variable interp : ndarray -> list nat -> list Q.
Variable cfg : config.
Variable P : state -> state -> Prop.
Hypothesis P_refl : forall st, P st st.
Hypothesis P_trans : forall a b c, P a b -> P b c -> P a c.
Hypothesis P_out :
  forall st c w dir n d entries img,
    wv cfg !! c = Some w -> 0 < w ->
    wavedirs st !! c = Some dir ->
    fs st !! dir = Some entries ->
    num_slc st !! c = Some n ->
    ds_size st !! c = Some d ->
    P st (state_out st c dir n d entries img).

Lemma guarded_refl (st : state) : guarded P st st.
Proof. intros H. split; [exact H|apply P_refl]. Qed.

Lemma guarded_trans (a b c : state) :
  guarded P a b -> guarded P b c -> guarded P a c.
Proof.
  intros Hab Hbc Ha. destruct (Hab Ha) as [Hb Pab].
  destruct (Hbc Hb) as [Hc Pbc]. split; [exact Hc|].
  eapply P_trans; eassumption.
Qed.

Lemma preserves_ret {A : Type} (a : A) : preserves (guarded P) (ret a).
Proof. intros st. apply guarded_refl. Qed.

Lemma preserves_lift {A : Type} (r : result A) : preserves (guarded P) (lift r).
Proof. intros st. apply guarded_refl. Qed.

Lemma preserves_gets {A : Type} (f : state -> A) : preserves (guarded P) (gets f).
Proof. intros st. apply guarded_refl. Qed.

Lemma preserves_bind {A B : Type} (m : M A) (k : A -> M B) :
  preserves (guarded P) m ->
  (forall a, preserves (guarded P) (k a)) ->
  preserves (guarded P) (bind m k).
Proof.
  intros Hm Hk st. unfold bind. specialize (Hm st).
  destruct (m st) as [st' [a|e]]; simpl in *; [|exact Hm].
  eapply guarded_trans; [exact Hm|apply Hk].
Qed.

Lemma export_slice_preserves (c : nat) (w : Z) (slc : ndarray) :
  wv cfg !! c = Some w -> 0 < w ->
  preserves (guarded P) (export_slice interp cfg c slc).
Proof.
  intros Hw Hpos st Hok.
  destruct (export_slice_cases interp cfg c slc st Hok)
    as [->|(img & dir & n & d & entries & Hd & Hf & Hn & Hs & ->)].
  - split; [exact Hok|apply P_refl].
  - simpl. split.
    + unfold arrays_ok, state_out. simpl. rewrite !length_insert. exact Hok.
    + eapply P_out; eassumption.
Qed.

Lemma channel_body_preserves (img_max : Z) (c : nat) (slc : ndarray) :
  preserves (guarded P) (channel_body interp cfg img_max c slc).
Proof.
  unfold channel_body, getitem.
  destruct (wv cfg !! c) as [w|] eqn:Hw.
  2:{ intros st. unfold bind, lift. simpl. apply guarded_refl. }
  intros st. unfold bind at 1. unfold lift at 1.
  destruct (Z.ltb_spec 0 w) as [Hpos|_]; [|apply guarded_refl].
  revert st.
  apply preserves_bind; [apply preserves_lift|]. intros plane.
  apply preserves_bind; [apply preserves_lift|]. intros ok.
  apply preserves_bind.
  - destruct ok; [|apply preserves_ret].
    eapply export_slice_preserves; eassumption.
  - intros img. apply preserves_bind; [apply preserves_gets|].
    intros st'. apply preserves_ret.
Qed.

Lemma channel_loop_preserves (img_max : Z) (cs : list nat) :
  forall slc, preserves (guarded P) (channel_loop interp cfg img_max cs slc).
Proof.
  induction cs as [|c cs IH]; intros slc; simpl.
  - apply preserves_ret.
  - apply preserves_bind; [apply channel_body_preserves|].
    intros r. destruct (snd r); [apply preserves_ret|apply IH].
Qed.

Lemma z_body_preserves (img : ndarray) (img_max : Z) (z : nat) :
  preserves (guarded P) (z_body interp cfg img img_max z).
Proof.
  unfold z_body.
  apply preserves_bind; [apply preserves_lift|]. intros slc.
  apply preserves_bind; [apply preserves_lift|]. intros n.
  apply channel_loop_preserves.
Qed.

Lemma z_loop_preserves (img : ndarray) (img_max : Z) (zs : list nat) :
  preserves (guarded P) (z_loop interp cfg img img_max zs).
Proof.
  induction zs as [|z zs IH]; simpl.
  - apply preserves_ret.
  - apply preserves_bind; [apply z_body_preserves|]. intros _. exact IH.
Qed.

Lemma process_stack_preserves (step : Z) (f : result ndarray) :
  preserves (guarded P) (process_stack interp cfg step f).
Proof.
  unfold process_stack.
  apply preserves_bind; [apply preserves_lift|]. intros img.
  apply preserves_bind; [apply preserves_lift|]. intros img_max.
  apply preserves_bind; [apply preserves_lift|]. intros stop.
  apply preserves_bind; [apply preserves_lift|]. intros zs.
  apply z_loop_preserves.
Qed.

Lemma stack_loop_preserves (step : Z) (stack_lst : list (result ndarray)) :
  preserves (guarded P) (stack_loop interp cfg step stack_lst).
Proof.
  induction stack_lst as [|f l IH]; simpl.
  - apply preserves_ret.
  - apply preserves_bind; [apply process_stack_preserves|]. intros _. exact IH.
Qed.

End Preservation.

(** ** Counters and file names over a run *)

Section Counting.
Import Np Curator Spec.

Lemma of_chan_app (c : nat) (l1 l2 : list tiff_file) :
  of_chan c (l1 ++ l2) = of_chan c l1 ++ of_chan c l2.
Proof. unfold of_chan. apply List.filter_app. Qed.

Lemma names_from_app (n : Z) (a b : nat) :
  names_from n (a + b) = names_from n a ++ names_from (n + Z.of_nat a) b.
Proof.
  unfold names_from. rewrite seq_app, fmap_app. f_equal.
  replace (seq (0 + a) b) with (Nat.add a <$> seq 0 b)
    by (rewrite fmap_add_seq; f_equal; lia).
  rewrite <- list_fmap_compose.
  apply list_fmap_ext. intros _ j _. simpl.
  do 2 f_equal. lia.
Qed.







End Counting.

(** ** Folders over a run, and channels that are not exported *)

Section Frames.
Import Np Curator Spec.
Variable interp : ndarray -> list nat -> list Q.
Variable cfg : config.

Lemma same_folders_out (st : state) (c : nat) (dir : string) (n d : Z)
    (entries : list string) (img : ndarray) :
  same_folders st (state_out st c dir n d entries img).
Proof.
  split; [reflexivity|]. intros d' Hd'. simpl.
  destruct (decide (dir = d')) as [<-|Hne].
  - rewrite lookup_insert_eq. eauto.
  - rewrite lookup_insert_ne by exact Hne. exact Hd'.
Qed.

(** The export loop neither changes [wavedirs] nor removes a folder. *)
Lemma stack_loop_same_folders (step : Z) (stack_lst : list (result ndarray)) :
  preserves (guarded same_folders) (stack_loop interp cfg step stack_lst).
Proof.
  apply stack_loop_preserves.
  - intros st. split; [reflexivity|auto].
  - intros a b c [Hab Fab] [Hbc Fbc]. split; [congruence|auto].
  - intros. apply same_folders_out.
Qed.

(** Over the whole export loop, a channel whose wavelength is not
    positive keeps its counter and its byte total, and no file is written
    from an iteration for it. *)
Lemma stack_loop_untouched (c0 : nat) (w0 : Z) (step : Z)
    (stack_lst : list (result ndarray)) :
  wv cfg !! c0 = Some w0 ->
  w0 <= 0 ->
  preserves (guarded (untouched c0)) (stack_loop interp cfg step stack_lst).
Proof.
  intros Hw0 Hle. apply stack_loop_preserves.
  - intros st. repeat split. exists []. rewrite app_nil_r. split; reflexivity.
  - intros a b c (Hn1 & Hd1 & new1 & Hw1 & Hc1) (Hn2 & Hd2 & new2 & Hw2 & Hc2).
    split; [congruence|]. split; [congruence|].
    exists (new1 ++ new2). rewrite Hw2, Hw1, app_assoc. split; [reflexivity|].
    rewrite of_chan_app, Hc1, Hc2. reflexivity.
  - intros st c w dir n d entries img Hw Hpos _ _ _ _.
    assert (Hne : c <> c0) by (intros ->; rewrite Hw0 in Hw; injection Hw as ->; lia).
    repeat split; simpl.
    + apply list_lookup_insert_ne, Hne.
    + apply list_lookup_insert_ne, Hne.
    + eexists. split; [reflexivity|]. unfold of_chan. simpl.
      destruct (Nat.eqb_spec c c0); [contradiction|reflexivity].
Qed.

(** When no entry of [wv] before index [c] is the sentinel, the folder
    at index [c] of [wavedirs] is the folder of [wv[c]]. *)
Lemma built_wavedirs_lookup (c : nat) (w : Z) :
  Forall (fun w' => w' <> -1) (take c (wv cfg)) ->
  wv cfg !! c = Some w ->
  w <> -1 ->
  built_wavedirs cfg !! c = Some (wavedir_of cfg w).
Proof.
  intros Hpre Hc Hw. unfold built_wavedirs.
  rewrite <- (take_drop_middle (wv cfg) c w Hc) at 1.
  rewrite List.filter_app. simpl.
  destruct (Z.eqb_spec w (-1)) as [|_]; [contradiction|]. simpl.
  assert (Hid : List.filter (fun w0 => negb (w0 =? -1)) (take c (wv cfg))
                = take c (wv cfg)).
  { induction Hpre as [|x l Hx _ IH]; simpl; [reflexivity|].
    destruct (Z.eqb_spec x (-1)) as [|_]; [contradiction|]. simpl.
    rewrite IH. reflexivity. }
  rewrite Hid, fmap_app. simpl.
  assert (Hlen : length (wavedir_of cfg <$> take c (wv cfg)) = c).
  { rewrite length_fmap, length_take. apply lookup_lt_Some in Hc. lia. }
  rewrite lookup_app_r by lia. rewrite Hlen, Nat.sub_diag. reflexivity.
Qed.

End Frames.

(** ** The file of an accepted slice *)

Section AcceptedSlice.
Import Np Curator Spec.
Variable interp : ndarray -> list nat -> list Q.
Variable cfg : config.

(** C5 (as the code has it): an accepted slice of a channel [c] that no
    sentinel entry precedes in [wv] is written, with zlib compression, to
    [outdir/{obj}_{w}nm/{num_slc[c]}.tiff] -- one folder per wavelength,
    named from the objective and the wavelength, directly under [outdir]
    -- after which the byte size of the written image is added to
    [ds_size[c]] and [num_slc[c]] is incremented. *)
Theorem C5_written_to_wavelength_folder
    (img_max : Z) (c : nat) (w : Z) (slc plane : ndarray) (st : state)
    (n d : Z) (entries : list string) :
  wv cfg !! c = Some w ->
  0 < w ->
  Forall (fun w' => w' <> -1) (take c (wv cfg)) ->
  wavedirs st = built_wavedirs cfg ->
  (if ch_first cfg then getitem_first_2d slc c else getitem_last slc c)
    = Ok plane ->
  ndim plane = 2%nat ->
  size plane <> 0%nat ->
  criteria_hold cfg img_max plane ->
  fs st !! wavedir_of cfg w = Some entries ->
  num_slc st !! c = Some n ->
  ds_size st !! c = Some d ->
  let st' := fst (channel_body interp cfg img_max c slc st) in
  let img := image_out interp cfg plane in
  let f := exported_file (wavedir_of cfg w) n img c in
  written st' = written st ++ [f] /\
  file_path f = flat_path cfg w n /\
  file_compression f = Some "zlib"%string /\
  ds_size st' = <[c := d + itemsize (dtype img) * Z.of_nat (size img)]> (ds_size st) /\
  num_slc st' = <[c := n + 1]> (num_slc st).
Proof.
  intros Hw Hpos Hpre Hdirs Hsel Hnd Hsz Hcrit Hfs Hn Hd st' img f.
  assert (Hdir : wavedirs st !! c = Some (wavedir_of cfg w)).
  { rewrite Hdirs. apply built_wavedirs_lookup; [exact Hpre|exact Hw|lia]. }
  destruct (inclusion_test_spec cfg img_max plane Hsz) as (b & Ht & Hb).
  assert (b = true) as -> by (apply Hb; exact Hcrit).
  subst st'.
  rewrite (channel_body_2d interp cfg img_max c w slc plane st _ n d entries true
             Hw Hpos Hsel Hnd Hdir Hfs Hn Hd Ht).
  simpl. repeat split; reflexivity.
Qed.

(** C7 (as the code has it): the image written for an accepted
    two-dimensional slice is the result of [resize] with the output shape
    (height of the slice, [x_shp_out]) whenever [x_shp_out] is set,
    whether or not it equals the width of the slice; the result has that
    shape and a floating-point element type. Only when [x_shp_out] is
    [None] is the slice written as it is. *)
Theorem C7_resized_whenever_width_is_set
    (img_max : Z) (c : nat) (w : Z) (slc plane : ndarray) (st : state)
    (dir : string) (n d : Z) (entries : list string) (h width : nat) :
  wv cfg !! c = Some w ->
  0 < w ->
  (if ch_first cfg then getitem_first_2d slc c else getitem_last slc c)
    = Ok plane ->
  shape plane = [h; width] ->
  size plane <> 0%nat ->
  criteria_hold cfg img_max plane ->
  wavedirs st !! c = Some dir ->
  fs st !! dir = Some entries ->
  num_slc st !! c = Some n ->
  ds_size st !! c = Some d ->
  exists f,
    written (fst (channel_body interp cfg img_max c slc st)) = written st ++ [f] /\
    (forall x, x_shp_out cfg = Some x ->
       Skimage.resize interp plane h x = Ok (file_image f) /\
       shape (file_image f) = [h; x] /\
       dtype (file_image f) = Skimage.convert_to_float (dtype plane)) /\
    (x_shp_out cfg = None -> file_image f = plane).
Proof.
  intros Hw Hpos Hsel Hshape Hsz Hcrit Hdir Hfs Hn Hd.
  assert (Hnd : ndim plane = 2%nat) by (unfold ndim; rewrite Hshape; reflexivity).
  destruct (inclusion_test_spec cfg img_max plane Hsz) as (b & Ht & Hb).
  assert (b = true) as -> by (apply Hb; exact Hcrit).
  rewrite (channel_body_2d interp cfg img_max c w slc plane st dir n d entries true
             Hw Hpos Hsel Hnd Hdir Hfs Hn Hd Ht).
  simpl. eexists. split; [reflexivity|]. simpl.
  unfold image_out. rewrite Hshape. simpl. split.
  - intros x Hx. rewrite Hx. simpl.
    rewrite (resize_2d interp plane h width x Hshape). repeat split.
  - intros Hnone. rewrite Hnone. reflexivity.
Qed.

End AcceptedSlice.

(** ** Stacks that cannot be read *)

Section UnreadableStack.
Import Np Curator Spec.
Variable interp : ndarray -> list nat -> list Q.
Variable cfg : config.

Lemma stack_loop_cons (step : Z) (f : result ndarray)
    (l : list (result ndarray)) (st : state) :
  stack_loop interp cfg step (f :: l) st
  = match process_stack interp cfg step f st with
    | (st1, Ok _) => stack_loop interp cfg step l st1
    | (st1, Raised e) => (st1, Raised e)
    end.
Proof. reflexivity. Qed.

(** C6 (as the code has it): [tiff.imread] is called without a handler,
    so the exception of an unreadable stack leaves the loop over the
    stacks. The run ends there with that exception, in the state the
    stacks before it produced; the stacks after it are not processed. *)
Theorem C6_unreadable_stack_ends_run
    (step : Z) (pre post : list (result ndarray)) (e : exn) (st : state) :
  let before := stack_loop interp cfg step pre st in
  stack_loop interp cfg step (pre ++ Raised e :: post) st
  = match snd before with
    | Ok _ => (fst before, Raised e)
    | Raised _ => before
    end.
Proof.
  revert st. induction pre as [|f pre IH]; intros st.
  - reflexivity.
  - cbv zeta in *. rewrite <- app_comm_cons, !stack_loop_cons.
    destruct (process_stack interp cfg step f st) as [st1 [[]|e1]].
    + apply IH.
    + reflexivity.
Qed.

(** A stack that was read is walked with the maximum of its element type
    as [img_max]. *)
Lemma process_stack_readable (step : Z) (img : ndarray) (img_max : Z)
    (stop : nat) (zs : list nat) (st : state) :
  iinfo_max (dtype img) = Ok img_max ->
  shape_at img 0 = Ok stop ->
  range_step stop step = Ok zs ->
  process_stack interp cfg step (Ok img) st
  = z_loop interp cfg img img_max zs st.
Proof.
  intros Hmax Hstop Hzs. unfold process_stack, bind, lift.
  rewrite Hmax, Hstop, Hzs. reflexivity.
Qed.

(** The size test [np.all(ds_size) >= max_dset_size] compares a truth
    value with the budget: for a budget above one byte it is false in
    every state. *)
Lemma size_reached_false (st : state) :
  (1 < max_dset_size cfg)%Q -> size_reached cfg st = false.
Proof.
  intros Hmax. unfold size_reached.
  destruct (Qle_bool (max_dset_size cfg) (bool_to_Q (all (ds_size st)))) eqn:E;
    [|reflexivity].
  apply Qle_bool_iff in E. exfalso.
  apply (Qlt_not_le _ _ Hmax). eapply Qle_trans; [exact E|].
  destruct (all (ds_size st)); simpl; [apply Qle_refl|discriminate].
Qed.

End UnreadableStack.

(** ** Runs on sample stacks *)

Section SampleRuns.
Import Np Curator Spec Sample.

(** C2: with a budget of 8 bytes and three accepted frames of 8 bytes
    each, the run writes all three: 24 bytes, more than the budget plus
    one frame. *)
Theorem C2_budget_not_enforced :
  let out := notebook flat_interp cfg_one [Ok stack_bright] (fresh ∅) in
  (max_dset_size cfg_one == 8)%Q /\
  snd out = Ok tt /\
  ds_size (fst out) = [24] /\
  file_name <$> written (fst out) = ["0.tiff"; "1.tiff"; "2.tiff"]%string /\
  ~ within_budget cfg_one 0 (fst out).
Proof.
  vm_compute. repeat split; try reflexivity.
  intros H. discriminate H.
Qed.

(** C4: with two exported channels, the variable [slc] holds the plane
    of the first channel when the second one is reached. With the channel
    axis first, the index [slc[1, :, :]] then raises and the second
    channel is never tested; with the channel axis last, [slc[..., 1]]
    is a column of the first channel's plane, and that column is what is
    tested and written for the second channel. *)
Theorem C4_second_channel_reads_first_plane :
  let first := notebook flat_interp cfg_two [Ok stack_two] (fresh ∅) in
  let last := notebook flat_interp cfg_two_last [Ok stack_two_last] (fresh ∅) in
  (snd first = Raised IndexError /\
   file_chan <$> written (fst first) = [0%nat]) /\
  (snd last = Ok tt /\
   exists f0 f1 p1,
     written (fst last) = [f0; f1] /\
     file_chan f1 = 1%nat /\
     plane_of cfg_two_last stack_two_last 0 1 = Ok p1 /\
     shape p1 = [2; 2]%nat /\
     getitem_last (file_image f0) 1 = Ok (file_image f1) /\
     file_image f1 <> p1).
Proof.
  cbv zeta. split.
  - vm_compute. split; reflexivity.
  - split; [vm_compute; reflexivity|].
    eexists _, _, _.
    split; [vm_compute; reflexivity|].
    split; [reflexivity|].
    split; [vm_compute; reflexivity|].
    split; [reflexivity|].
    split; [vm_compute; reflexivity|].
    discriminate.
Qed.

(** The failure of the second channel does not depend on the pixels: once
    an iteration has selected a plane, the variable [slc] has two axes,
    and with the channel axis first the next selection raises. *)
Lemma second_selection_raises (plane : ndarray) (c : nat) :
  ndim plane = 2%nat -> getitem_first_2d plane c = Raised IndexError.
Proof. intros H. unfold getitem_first_2d. rewrite H. reflexivity. Qed.

(** C5, the claim as stated, on a run that exports one frame for the
    wavelength 638 with the counter at 0: the file is
    [out/obj_638nm/0.tiff], not [out/obj/638/0.tiff]. *)
Lemma C5_counterexample :
  let out := notebook flat_interp cfg_one [Ok stack_single] (fresh ∅) in
  exists f,
    written (fst out) = [f] /\
    file_chan f = 0%nat /\
    file_path f = "out/obj_638nm/0.tiff"%string /\
    nested_path cfg_one 638 0 = "out/obj/638/0.tiff"%string /\
    file_path f <> nested_path cfg_one 638 0.
Proof.
  cbv zeta. eexists.
  split; [vm_compute; reflexivity|].
  split; [reflexivity|].
  split; [reflexivity|].
  split; [reflexivity|].
  vm_compute. discriminate.
Qed.

Lemma C5_witness :
  let st' :=
    fst (channel_body flat_interp cfg_one 65535 0 (newaxis_first plane_bright) st_one) in
  let img := image_out flat_interp cfg_one plane_bright in
  let f := exported_file (wavedir_of cfg_one 638) 0 img 0 in
  written st' = written st_one ++ [f] /\
  file_path f = flat_path cfg_one 638 0 /\
  file_compression f = Some "zlib"%string /\
  ds_size st'
  = <[0%nat := 0 + itemsize (dtype img) * Z.of_nat (size img)]> (ds_size st_one) /\
  num_slc st' = <[0%nat := 0 + 1]> (num_slc st_one).
Proof.
  apply (C5_written_to_wavelength_folder flat_interp cfg_one 65535 0 638
           (newaxis_first plane_bright) plane_bright st_one 0 0 []).
  - reflexivity.
  - lia.
  - constructor.
  - reflexivity.
  - reflexivity.
  - reflexivity.
  - vm_compute. discriminate.
  - criteria_computed.
  - vm_compute. reflexivity.
  - reflexivity.
  - reflexivity.
Defined.

(** C7, the claim as stated, on a 2x2 frame with the output width forced
    to 2, the width the frame has: the frame goes through [resize] all
    the same. Even with an interpolation that returns the pixel values
    unchanged, the image written is a double-precision array (32 bytes
    are counted for it, not 8), not the 16-bit frame. *)
Lemma C7_counterexample :
  let out :=
    channel_body flat_interp cfg_width 65535 0 (newaxis_first plane_bright) st_one in
  x_shp_out cfg_width = Some 2%nat /\
  shape plane_bright = [2; 2]%nat /\
  exists f,
    written (fst out) = [f] /\
    dtype plane_bright = UInt16 /\
    dtype (file_image f) = Float64 /\
    ds_size (fst out) = [32] /\
    ~ resized_when_differs flat_interp cfg_width plane_bright (file_image f).
Proof.
  cbv zeta. split; [reflexivity|]. split; [reflexivity|].
  eexists. split; [vm_compute; reflexivity|].
  split; [reflexivity|]. split; [reflexivity|].
  split; [vm_compute; reflexivity|].
  unfold resized_when_differs. simpl. discriminate.
Qed.

Lemma C7_witness :
  exists f,
    written (fst (channel_body flat_interp cfg_width 65535 0
                    (newaxis_first plane_bright) st_one))
    = written st_one ++ [f] /\
    (forall x, x_shp_out cfg_width = Some x ->
       Skimage.resize flat_interp plane_bright 2 x = Ok (file_image f) /\
       shape (file_image f) = [2%nat; x] /\
       dtype (file_image f) = Skimage.convert_to_float (dtype plane_bright)) /\
    (x_shp_out cfg_width = None -> file_image f = plane_bright).
Proof.
  apply (C7_resized_whenever_width_is_set flat_interp cfg_width 65535 0 638
           (newaxis_first plane_bright) plane_bright st_one
           "out/obj_638nm" 0 0 [] 2 2).
  - reflexivity.
  - lia.
  - reflexivity.
  - reflexivity.
  - vm_compute. discriminate.
  - criteria_computed.
  - reflexivity.
  - vm_compute. reflexivity.
  - reflexivity.
  - reflexivity.
Defined.

(** C6, the claim as stated, on a batch whose first stack cannot be
    read: the run raises and writes nothing, whereas the readable stack
    alone gives one file. *)
Lemma C6_counterexample :
  let batch := [Raised TiffFileError; Ok stack_single] in
  let out := notebook flat_interp cfg_one batch (fresh ∅) in
  snd out = Raised TiffFileError /\
  written (fst out) = [] /\
  length (written (fst (notebook flat_interp cfg_one [Ok stack_single] (fresh ∅))))
  = 1%nat /\
  ~ skips_unreadable flat_interp cfg_one batch ∅.
Proof.
  cbv zeta. split; [vm_compute; reflexivity|].
  split; [vm_compute; reflexivity|].
  split; [vm_compute; reflexivity|].
  intros [H _]. vm_compute in H. discriminate H.
Qed.

(** A run that resumes: the folder holds two TIFF files and a text file,
    so the counter starts at 2 and the new frame is [2.tiff]. *)
Example resume_sample :
  let fs0 : gmap string (list string) :=
    {[ "out/obj_638nm"%string := ["0.tiff"; "old.TIF"; "notes.txt"]%string ]} in
  let out := notebook flat_interp cfg_one [Ok stack_single] (fresh fs0) in
  num_slc (fst (io_cell cfg_one (fresh fs0))) = [2] /\
  file_path <$> written (fst out) = ["out/obj_638nm/2.tiff"%string] /\
  num_slc (fst out) = [3].
Proof. vm_compute. repeat split; reflexivity. Qed.


End SampleRuns.

(** ** The correction formula *)

Section Correction.
Import Corrector.

(** C3: zero-light-preserved correction gives, at every pixel,
    [(x - z) * (s / v)] with [s] the mean of the flat-field; a pixel
    whose value equals its dark-field value is therefore mapped to 0. *)
Theorem C3_zero_light_preserved
    (xs vs zs : list Q) (i : nat) (x v z : Q) :
  xs !! i = Some x ->
  vs !! i = Some v ->
  zs !! i = Some z ->
  correct_zero_light xs vs zs !! i
  = Some ((x - z) * (field_scale vs / v))%Q /\
  ((x == z)%Q ->
   exists y, correct_zero_light xs vs zs !! i = Some y /\ (y == 0)%Q).
Proof.
  intros Hx Hv Hz.
  assert (Hi : correct_zero_light xs vs zs !! i
               = Some ((x - z) * (field_scale vs / v))%Q).
  { unfold correct_zero_light, zero_light_preserved.
    assert (Hvz : zip vs zs !! i = Some (v, z)).
    { apply lookup_zip_with_Some. exists v, z. auto. }
    rewrite lookup_zip_with, Hx. simpl. rewrite Hvz. reflexivity. }
  split; [exact Hi|].
  intros Heq. eexists. split; [exact Hi|].
  rewrite Heq. ring.
Qed.

Lemma C3_witness :
  correct_zero_light Sample.frame_x Sample.model_v Sample.model_z !! 0%nat
  = Some ((100 - 100) * (field_scale Sample.model_v / 2))%Q /\
  ((100 == 100)%Q ->
   exists y,
     correct_zero_light Sample.frame_x Sample.model_v Sample.model_z !! 0%nat
     = Some y /\ (y == 0)%Q).
Proof.
  apply (C3_zero_light_preserved Sample.frame_x Sample.model_v Sample.model_z
           0 100 2 100);
    reflexivity.
Defined.

End Correction.

(** * Further properties of the notebook *)

(** ** Names and suffixes *)

Section Names.
Import Np Curator Spec.

Lemma to_int_not_nil (z : Z) :
  Z.to_int z <> Decimal.Pos Decimal.Nil /\ Z.to_int z <> Decimal.Neg Decimal.Nil.
Proof.
  destruct z as [|p|p]; simpl; split; try discriminate;
    intros [= Hp]; exact (DecimalPos.Unsigned.to_uint_nonnil p Hp).
Qed.

Lemma str_parse (n : Z) :
  NilZero.int_of_string (Pathlib.str n) = Some (Z.to_int n).
Proof.
  unfold Pathlib.str. destruct (to_int_not_nil n) as [H1 H2].
  apply NilZero.isi; assumption.
Qed.

(** The decimal text of an integer determines it. *)
Lemma str_inj (n m : Z) : Pathlib.str n = Pathlib.str m -> n = m.
Proof.
  intros H. apply DecimalZ.to_int_inj.
  assert (Some (Z.to_int n) = Some (Z.to_int m)) as [= ->]; [|reflexivity].
  rewrite <- !str_parse, H. reflexivity.
Qed.

Lemma str_nonempty (n : Z) : Pathlib.str n <> EmptyString.
Proof.
  intros H. pose proof (str_parse n) as Hp. rewrite H in Hp. discriminate.
Qed.

Lemma rfind_dot_tiff (s : string) :
  Pathlib.rfind_dot (s +:+ ".tiff") = Some (String.length s).
Proof.
  induction s as [|a s IH]; [reflexivity|].
  simpl. rewrite IH. reflexivity.
Qed.

Lemma substring_tiff (s : string) :
  String.substring (String.length s) 5 (s +:+ ".tiff") = ".tiff"%string.
Proof. induction s as [|a s IH]; [reflexivity|]. simpl. exact IH. Qed.

Lemma length_tiff (s : string) :
  String.length (s +:+ ".tiff") = (String.length s + 5)%nat.
Proof. induction s as [|a s IH]; [reflexivity|]. simpl. rewrite IH. reflexivity. Qed.

(** The suffix of [name.tiff] is [.tiff] for every non-empty [name],
    whatever dots [name] has. *)
Lemma suffix_tiff (s : string) :
  s <> EmptyString -> Pathlib.suffix (s +:+ ".tiff") = ".tiff"%string.
Proof.
  intros Hs. unfold Pathlib.suffix.
  rewrite rfind_dot_tiff, length_tiff.
  assert (0 < String.length s)%nat by (destruct s; [contradiction|simpl; lia]).
  destruct (Nat.ltb_spec 0 (String.length s)); [|lia].
  destruct (Nat.ltb_spec (String.length s) (String.length s + 5 - 1)); [|lia].
  simpl. replace (String.length s + 5 - String.length s)%nat with 5%nat by lia.
  apply substring_tiff.
Qed.

Lemma exported_name_tiff (n : Z) :
  is_tiff_name (Pathlib.str n +:+ ".tiff") = true.
Proof.
  unfold is_tiff_name. rewrite suffix_tiff by apply str_nonempty. reflexivity.
Qed.

(** X1: a file that the export cell names, [{n}.tiff] for a counter value
    [n], is one that the I/O cell of a later run counts, and the names of
    two counter values differ. *)
Theorem X1_exported_names_counted_and_distinct (n m : Z) :
  is_tiff_name (Pathlib.str n +:+ ".tiff") = true /\
  ((Pathlib.str n +:+ ".tiff")%string = (Pathlib.str m +:+ ".tiff")%string <-> n = m).
Proof.
  split; [apply exported_name_tiff|]. split.
  - intros H. apply str_inj.
    revert H. generalize (Pathlib.str n) (Pathlib.str m).
    induction s as [|a s IH]; intros [|b t] H; simpl in H.
    + reflexivity.
    + apply (f_equal String.length) in H. simpl in H.
      rewrite length_tiff in H. lia.
    + apply (f_equal String.length) in H. simpl in H.
      rewrite length_tiff in H. lia.
    + injection H as -> H. f_equal. apply IH, H.
  - intros ->. reflexivity.
Qed.

End Names.

(** ** The listing of the stacks *)

Section Listing.
Import Discovery.

Lemma lower_ascii_idemp (a : Ascii.ascii) :
  Pathlib.lower_ascii (Pathlib.lower_ascii a) = Pathlib.lower_ascii a.
Proof.
  destruct a as [[] [] [] [] [] [] [] []]; reflexivity.
Qed.

Lemma lower_idemp (s : string) : Pathlib.lower (Pathlib.lower s) = Pathlib.lower s.
Proof.
  induction s as [|a s IH]; [reflexivity|].
  simpl. rewrite lower_ascii_idemp, IH. reflexivity.
Qed.

Lemma substring_lower (s : string) :
  forall n m,
    String.substring n m (Pathlib.lower s) = Pathlib.lower (String.substring n m s).
Proof.
  induction s as [|a s IH]; intros [|n] [|m]; simpl; try reflexivity.
  - rewrite IH. reflexivity.
  - apply IH.
  - apply IH.
Qed.

(** What [endswith] accepts after [lower] is in lower case itself. *)
Lemma endswith_lower (path fmt : string) :
  endswith (Pathlib.lower path) fmt = true -> Pathlib.lower fmt = fmt.
Proof.
  unfold endswith. intros H. apply andb_true_iff in H as [_ H].
  apply String.eqb_eq in H. rewrite substring_lower in H.
  rewrite <- H. apply lower_idemp.
Qed.

(** X2: the path is lowered before the comparison and the formats are
    not, so a list of formats each of which has an upper-case letter
    selects no stack at all. *)
Theorem X2_upper_case_formats_select_nothing
    (formats : list string) (entries : list (string * bool)) :
  Forall (fun fmt => Pathlib.lower fmt <> fmt) formats ->
  list_stacks formats entries = [].
Proof.
  intros Hup. unfold list_stacks.
  assert (Hnone : forall path, has_format formats path = false).
  { intros path. unfold has_format.
    induction Hup as [|fmt l Hfmt _ IH]; simpl; [reflexivity|].
    rewrite IH, orb_false_r.
    destruct (endswith (Pathlib.lower path) fmt) eqn:E; [|reflexivity].
    apply endswith_lower in E. contradiction. }
  induction entries as [|[p b] l IH]; simpl; [reflexivity|].
  rewrite Hnone, andb_false_r. exact IH.
Qed.

Lemma X2_witness :
  list_stacks ["_L.tiff"; ".TIF"]%string Sample2.entries_src = [].
Proof.
  apply X2_upper_case_formats_select_nothing.
  repeat constructor; discriminate.
Defined.

(** A listing with a lower-case format, for comparison: files only, and
    whatever the case of the path. *)
Example list_stacks_sample :
  list_stacks ["_l.tiff"]%string Sample2.entries_src
  = ["src/a_l.tiff"; "src/b_L.TIFF"]%string.
Proof. reflexivity. Qed.

End Listing.

(** ** Rounding to a double *)

Section Rounding.
Import Np.


Lemma pow2_pos (e : Z) : (0 < pow2 e)%Q.
Proof.
  unfold pow2. destruct (Z.leb_spec 0 e).
  - change (inject_Z 0 < inject_Z (2 ^ e))%Q. rewrite <- Zlt_Qlt.
    apply Z.pow_pos_nonneg; lia.
  - reflexivity.
Qed.

(** Below exponent zero a power of two is the inverse of an integer. *)
Lemma pow2_inverse (e : Z) : e <= 0 -> (pow2 e * inject_Z (2 ^ (- e)) == 1)%Q.
Proof.
  intros He. unfold pow2. destruct (Z.leb_spec 0 e).
  - assert (e = 0) as -> by lia. reflexivity.
  - assert (Hp : 0 < 2 ^ (- e)) by (apply Z.pow_pos_nonneg; lia).
    destruct (2 ^ (- e)) as [|p|p]; try lia.
    unfold Qeq. simpl. rewrite ?Pos.mul_1_r. lia.
Qed.

Lemma pow2_ratio (a b : Z) :
  0 <= a -> 0 <= b -> (pow2 (a - b) * inject_Z (2 ^ b) == inject_Z (2 ^ a))%Q.
Proof.
  intros Ha Hb. unfold pow2. destruct (Z.leb_spec 0 (a - b)).
  - rewrite <- inject_Z_mult, <- Z.pow_add_r by lia.
    replace (a - b + b) with a by lia. reflexivity.
  - assert (Hp : 0 < 2 ^ (- (a - b))) by (apply Z.pow_pos_nonneg; lia).
    assert (Hb' : 2 ^ b = 2 ^ a * 2 ^ (- (a - b))).
    { rewrite <- Z.pow_add_r by lia. f_equal. lia. }
    rewrite Hb'. set (A := 2 ^ a).
    destruct (2 ^ (- (a - b))) as [|p|p]; try lia.
    unfold Qeq. simpl. rewrite ?Pos.mul_1_r.
    destruct (A * Z.pos p); lia.
Qed.

Lemma pow2_mono (a b : Z) : 0 <= a <= b -> (pow2 a <= pow2 b)%Q.
Proof.
  intros H. unfold pow2.
  destruct (Z.leb_spec 0 a); [|lia]. destruct (Z.leb_spec 0 b); [|lia].
  rewrite <- Zle_Qle. apply Z.pow_le_mono_r; lia.
Qed.

(** The exponent found for a positive rational is not above it. *)
Lemma ilog2_le (q : Q) : (0 < q)%Q -> (pow2 (ilog2 q) <= q)%Q.
Proof.
  intros Hq. unfold ilog2.
  set (a := Z.log2 (Qnum q)). set (b := Z.log2 (Zpos (Qden q))).
  destruct (Qlt_bool q (pow2 (a - b))) eqn:E.
  - assert (Hn : 0 < Qnum q).
    { unfold Qlt in Hq. simpl in Hq. lia. }
    pose proof (Z.log2_spec (Qnum q) Hn) as [Ha _]. fold a in Ha.
    pose proof (Z.log2_spec (Zpos (Qden q)) ltac:(lia)) as [_ Hb]. fold b in Hb.
    assert (H0a : 0 <= a) by apply Z.log2_nonneg.
    assert (H0b : 0 <= b) by apply Z.log2_nonneg.
    pose proof (pow2_ratio a (b + 1) H0a ltac:(lia)) as Hr.
    replace (a - (b + 1)) with (a - b - 1) in Hr by lia.
    set (x := pow2 (a - b - 1)) in *.
    assert (Hx : (0 < x)%Q) by apply pow2_pos.
    (* x * 2^(b+1) = 2^a <= n and d < 2^(b+1) *)
    apply Qmult_le_r with (z := inject_Z (2 ^ (b + 1))).
    { change (inject_Z 0 < inject_Z (2 ^ (b + 1)))%Q. rewrite <- Zlt_Qlt.
      apply Z.pow_pos_nonneg; lia. }
    rewrite Hr.
    apply Qle_trans with (inject_Z (Qnum q)); [rewrite <- Zle_Qle; exact Ha|].
    apply Qle_trans with (q * inject_Z (Zpos (Qden q)))%Q.
    + unfold Qle, Qmult, inject_Z. simpl. lia.
    + apply Qmult_le_l; [exact Hq|].
      rewrite <- Zle_Qle. lia.
  - apply Qnot_lt_le. intros H. apply Qlt_bool_iff in H. congruence.
Qed.

Lemma round_half_even_ge (x : Q) (k : Z) :
  (inject_Z k <= x)%Q -> k <= round_half_even x.
Proof.
  intros H. assert (Hf : k <= Qfloor x).
  { rewrite <- (Qfloor_Z k). apply Qfloor_resp_le, H. }
  unfold round_half_even.
  destruct (x - inject_Z (Qfloor x) ?= 1 # 2)%Q; [|lia|lia].
  destruct (Z.even (Qfloor x)); lia.
Qed.

Lemma round_half_even_le (x : Q) (k : Z) :
  (x <= inject_Z k)%Q -> round_half_even x <= k.
Proof.
  intros H. assert (Hf : Qfloor x <= k).
  { rewrite <- (Qfloor_Z k). apply Qfloor_resp_le, H. }
  unfold round_half_even.
  destruct (Z.eq_dec (Qfloor x) k) as [Heq|Hne].
  - assert (Hx : (x - inject_Z (Qfloor x) <= 0)%Q).
    { rewrite Heq. apply (Qplus_le_l _ _ (inject_Z k)). ring_simplify. exact H. }
    assert (Hlt : (x - inject_Z (Qfloor x) ?= 1 # 2)%Q = Lt).
    { apply Qlt_alt. eapply Qle_lt_trans; [exact Hx|reflexivity]. }
    rewrite Hlt. lia.
  - destruct (x - inject_Z (Qfloor x) ?= 1 # 2)%Q; [|lia|lia].
    destruct (Z.even (Qfloor x)); lia.
Qed.

(** Rounding to a double keeps a positive rational between the integers
    below [2^53] that enclose it. *)
Lemma round_pos_between (q : Q) (lo hi : Z) :
  (0 < q)%Q -> 0 <= lo -> hi < 2 ^ 53 ->
  (inject_Z lo <= q)%Q -> (q <= inject_Z hi)%Q ->
  exists r, round_pos q = Fin r /\ (inject_Z lo <= r)%Q /\ (r <= inject_Z hi)%Q.
Proof.
  intros Hq Hlo Hhi Hl Hh. unfold round_pos.
  set (e := Z.max (ilog2 q - 52) (-1074)).
  assert (He : e <= 0).
  { destruct (Z.le_gt_cases e 0) as [|Hpos]; [assumption|exfalso].
    assert (Hi : 53 <= ilog2 q) by lia.
    pose proof (ilog2_le q Hq) as Hle.
    pose proof (pow2_mono 53 (ilog2 q) ltac:(lia)) as Hm.
    assert (Hc : (pow2 53 <= inject_Z hi)%Q).
    { eapply Qle_trans; [exact Hm|]. eapply Qle_trans; [exact Hle|exact Hh]. }
    unfold pow2 in Hc. simpl in Hc. rewrite <- Zle_Qle in Hc. lia. }
  set (x := (q / pow2 e)%Q).
  pose proof (pow2_pos e) as Hp.
  pose proof (pow2_inverse e He) as Hinv.
  set (u := 2 ^ (- e)) in *.
  assert (Hu : 0 < u) by (apply Z.pow_pos_nonneg; lia).
  assert (Hscale : forall k : Z, (inject_Z (k * u) * pow2 e == inject_Z k)%Q).
  { intros k. rewrite inject_Z_mult, <- Qmult_assoc, (Qmult_comm (inject_Z u)), Hinv.
    apply Qmult_1_r. }
  assert (Hxl : (inject_Z (lo * u) <= x)%Q).
  { unfold x. apply Qle_shift_div_l; [exact Hp|]. rewrite Hscale. exact Hl. }
  assert (Hxh : (x <= inject_Z (hi * u))%Q).
  { unfold x. apply Qle_shift_div_r; [exact Hp|]. rewrite Hscale. exact Hh. }
  apply round_half_even_ge in Hxl. apply round_half_even_le in Hxh.
  destruct (Z.ltb_spec 971 e) as [|_]; [lia|].
  destruct (Z.eqb_spec e 971) as [|_]; [lia|]. simpl.
  eexists. split; [reflexivity|]. split.
  - rewrite <- (Hscale lo). apply Qmult_le_compat_r; [|apply Qlt_le_weak, Hp].
    rewrite <- Zle_Qle. exact Hxl.
  - rewrite <- (Hscale hi). apply Qmult_le_compat_r; [|apply Qlt_le_weak, Hp].
    rewrite <- Zle_Qle. exact Hxh.
Qed.

End Rounding.

(** ** The z-stride *)

Section Stride.
Import Np Curator Spec.
Variable cfg : config.

(** X3: for a positive step, [range(0, stop, step)] holds exactly the
    multiples of the step below [stop]. *)
Theorem X3_range_step_members (stop : nat) (step : Z) (zs : list nat) (z : nat) :
  0 < step ->
  range_step stop step = Ok zs ->
  z ∈ zs <-> (z < stop)%nat /\ exists k : nat, z = (k * Z.to_nat step)%nat.
Proof.
  intros Hpos. unfold range_step.
  destruct (Z.eqb_spec step 0) as [|_]; [lia|].
  destruct (Z.ltb_spec step 0) as [|_]; [lia|].
  intros [= <-]. set (s := Z.to_nat step).
  assert (Hs : (0 < s)%nat) by (subst s; lia).
  rewrite list_elem_of_fmap. setoid_rewrite elem_of_seq.
  assert (Hdiv : forall k, (k < (stop + s - 1) / s)%nat <-> (k * s < stop)%nat).
  { intros k. split; intros Hk.
    - pose proof (Nat.Div0.mul_div_le (stop + s - 1) s). nia.
    - assert (S k <= (stop + s - 1) / s)%nat; [|lia].
      apply Nat.div_le_lower_bound; [lia|nia]. }
  split.
  - intros (k & -> & _ & Hk). simpl in Hk. apply Hdiv in Hk. eauto.
  - intros (Hz & k & ->). exists k. split; [reflexivity|].
    split; [lia|]. simpl. apply Hdiv, Hz.
Qed.

Lemma X3_witness :
  (10 : nat) ∈ [0; 5; 10]%nat <->
  (10 < 12)%nat /\ exists k : nat, (10 = k * Z.to_nat 5)%nat.
Proof.
  apply (X3_range_step_members 12 5 [0; 5; 10]%nat 10); [lia|reflexivity].
Defined.

(** X4: for two lengths that are finite as doubles, a positive slice
    thickness and a stride of at least one slice (and a quotient below
    [2^53]), the step is computed without an error, is at least 1, and is
    the ceiling of the exact quotient of the two doubles or one less: the
    quotient is rounded to a double before the ceiling is taken, which
    can bring it down to the integer just below it, and never moves it
    across an integer. *)
Theorem X4_z_strd_within_one_of_ceiling :
  let um := fvalue (round64 (z_strd_um cfg)) in
  let px := fvalue (round64 (px_sz_z cfg)) in
  is_finite (round64 (z_strd_um cfg)) = true ->
  is_finite (round64 (px_sz_z cfg)) = true ->
  (0 < px)%Q ->
  (px <= um)%Q ->
  (um / px <= inject_Z (2 ^ 53 - 1))%Q ->
  exists s : Z,
    z_strd cfg = Ok s /\
    1 <= s /\
    Qceiling (um / px) - 1 <= s <= Qceiling (um / px).
Proof.
  intros um px Hfu Hfp Hpx Hle Hmax. unfold z_strd. subst um px.
  destruct (round64 (z_strd_um cfg)) as [a| |]; try discriminate.
  destruct (round64 (px_sz_z cfg)) as [b| |]; try discriminate.
  simpl in *. clear Hfu Hfp.
  destruct (Qeq_bool b 0) eqn:E.
  { apply Qeq_bool_iff in E. rewrite E in Hpx. exfalso. exact (Qlt_irrefl 0 Hpx). }
  set (q := (a / b)%Q) in *.
  assert (Hq1 : (1 <= q)%Q).
  { subst q. apply Qle_shift_div_l; [exact Hpx|]. rewrite Qmult_1_l. exact Hle. }
  assert (Hq : (0 < q)%Q) by (eapply Qlt_le_trans; [|exact Hq1]; reflexivity).
  set (K := Qceiling q).
  assert (HK : K <= 2 ^ 53 - 1).
  { subst K. rewrite <- (Qceiling_Z (2 ^ 53 - 1)). apply Qceiling_resp_le, Hmax. }
  assert (Hlo : (inject_Z (Z.max 1 (K - 1)) <= q)%Q).
  { destruct (Z.max_spec 1 (K - 1)) as [[_ ->]|[_ ->]].
    - apply Qlt_le_weak, Qceiling_lt.
    - exact Hq1. }
  destruct (round_pos_between q (Z.max 1 (K - 1)) K Hq ltac:(lia) ltac:(lia)
              Hlo (Qle_ceiling q)) as (r & Hr & Hrl & Hrh).
  unfold round64. apply Qgt_alt in Hq. rewrite Hq, Hr. simpl.
  exists (Qceiling r). split; [reflexivity|].
  assert (Hs1 : Z.max 1 (K - 1) <= Qceiling r).
  { rewrite Zle_Qle. eapply Qle_trans; [exact Hrl|apply Qle_ceiling]. }
  assert (Hs2 : Qceiling r <= K).
  { rewrite <- (Qceiling_Z K). apply Qceiling_resp_le, Hrh. }
  lia.
Qed.

End Stride.

(** The theorem at the notebook's own setting, 17 um on slices of 3.4 um:
    the double 3.4 is just below 3.4, the exact quotient just above 5 and
    its ceiling 6; rounded to a double the quotient is 5.0, and the step
    is 5. *)
Lemma X4_witness :
  let um := Np.fvalue (Np.round64 (Curator.z_strd_um Sample2.cfg_stride)) in
  let px := Np.fvalue (Np.round64 (Curator.px_sz_z Sample2.cfg_stride)) in
  (Curator.z_strd Sample2.cfg_stride = Ok 5 /\ Qceiling (um / px) = 6) /\
  exists s : Z,
    Curator.z_strd Sample2.cfg_stride = Ok s /\
    1 <= s /\
    Qceiling (um / px) - 1 <= s <= Qceiling (um / px).
Proof.
  split; [vm_compute; split; reflexivity|].
  apply (X4_z_strd_within_one_of_ceiling Sample2.cfg_stride).
  - reflexivity.
  - reflexivity.
  - vm_compute. reflexivity.
  - vm_compute. discriminate.
  - vm_compute. discriminate.
Defined.

(** The step at other settings: 2.1 um on slices of 0.3 um gives 8, the
    quotient of the two doubles being just above 7; a thickness of zero
    raises. *)
Example z_strd_samples :
  Curator.z_strd Sample2.cfg_tenths = Ok 8 /\
  Curator.z_strd Sample.cfg_one = Ok 1 /\
  Curator.z_strd
    (Curator.mk_config [638] "out" true "obj" 1 (1 # 2) (5 # 1000) 8 17 0 None)
  = Raised ZeroDivisionError.
Proof. vm_compute. repeat split. Qed.

(** ** Stacks without a channel axis *)

Section Grayscale.
Import Np Curator Spec Props.
Variable interp : ndarray -> list nat -> list Q.
Variable cfg : config.

Lemma frame_getitem (img : ndarray) (n z : nat) (rest : list nat) :
  shape img = n :: rest -> (z < n)%nat -> getitem_first img z = Ok (frame img z).
Proof.
  intros Hs Hz. unfold getitem_first, frame. rewrite Hs. simpl.
  destruct (Nat.ltb_spec z n); [reflexivity|lia].
Qed.

Lemma frame_well_formed (img : ndarray) (n z : nat) (rest : list nat) :
  well_formed img -> shape img = n :: rest -> (z < n)%nat ->
  well_formed (frame img z).
Proof.
  unfold well_formed, size, frame. intros Hwf Hs Hz. rewrite Hs in *. simpl in *.
  rewrite length_take, length_drop, Hwf. nia.
Qed.

Lemma gather_unit_stride (l : list Q) :
  (fun r => default 0%Q (l !! (r * 1 + 0)%nat)) <$> seq 0 (length l) = l.
Proof.
  apply list_eq. intros i. rewrite list_lookup_fmap.
  destruct (Nat.lt_ge_cases i (length l)) as [Hi|Hi].
  - rewrite lookup_seq_lt by exact Hi. simpl.
    replace (i * 1 + 0)%nat with i by lia.
    destruct (lookup_lt_is_Some_2 l i Hi) as [x Hx]. rewrite Hx. reflexivity.
  - rewrite lookup_seq_ge by exact Hi. simpl.
    symmetry. apply lookup_ge_None_2. exact Hi.
Qed.

Lemma added_axis_roundtrip (p : ndarray) :
  well_formed p ->
  (2 <= ndim p)%nat ->
  getitem_first_2d (newaxis_first p) 0 = Ok p /\
  getitem_last (newaxis_last p) 0 = Ok p.
Proof.
  unfold well_formed, size. intros Hwf Hnd. destruct p as [dt shp dat].
  simpl in *. split.
  - unfold getitem_first_2d, getitem_first, newaxis_first, ndim. simpl.
    unfold ndim in Hnd. simpl in Hnd.
    destruct (Nat.ltb_spec (S (length shp)) 3); [lia|].
    rewrite drop_0, take_ge by lia. reflexivity.
  - unfold getitem_last, newaxis_last. simpl.
    rewrite last_snoc. simpl. rewrite removelast_last, <- Hwf.
    rewrite gather_unit_stride. reflexivity.
Qed.

(** X5: the channel axis that the z-loop adds to a frame without one is
    undone by the selection of channel 0, for either position of the
    axis: the slice that is tested is the frame itself. *)
Theorem X5_added_axis_selects_the_frame (p : ndarray) :
  well_formed p ->
  (2 <= ndim p)%nat ->
  getitem_first_2d (newaxis_first p) 0 = Ok p /\
  getitem_last (newaxis_last p) 0 = Ok p.
Proof. apply added_axis_roundtrip. Qed.

Lemma X5_witness :
  getitem_first_2d (newaxis_first Sample.plane_bright) 0 = Ok Sample.plane_bright /\
  getitem_last (newaxis_last Sample.plane_bright) 0 = Ok Sample.plane_bright.
Proof.
  apply X5_added_axis_selects_the_frame; [reflexivity|].
  unfold ndim. simpl. lia.
Defined.

(** One iteration of the z-loop on a stack of shape (Z, Y, X) with one
    wavelength: the frame at depth [z] is tested, and written when it is
    accepted. *)
Lemma z_body_grayscale (img : ndarray) (img_max : Z) (z nz ny nx : nat) (w : Z)
    (st : state) (dir : string) (n d : Z) (entries : list string) :
  shape img = [nz; ny; nx] ->
  well_formed img ->
  (ny * nx <> 0)%nat ->
  (z < nz)%nat ->
  wv cfg !! 0%nat = Some w ->
  0 < w ->
  wavedirs st !! 0%nat = Some dir ->
  fs st !! dir = Some entries ->
  num_slc st !! 0%nat = Some n ->
  ds_size st !! 0%nat = Some d ->
  z_body interp cfg img img_max z st
  = if accepted cfg img_max (frame img z)
    then (state_out st 0 dir n d entries (image_out interp cfg (frame img z)), Ok tt)
    else (st, Ok tt).
Proof.
  intros Hs Hwf Hsz Hz Hw Hpos Hdir Hfs Hn Hd.
  set (p := frame img z).
  assert (Hp : getitem_first img z = Ok p) by (eapply frame_getitem; eauto).
  assert (Hpwf : well_formed p) by (eapply frame_well_formed; eauto).
  assert (Hpshape : shape p = [ny; nx]) by (unfold p, frame; rewrite Hs; reflexivity).
  assert (Hnd : ndim p = 2%nat) by (unfold ndim; rewrite Hpshape; reflexivity).
  assert (Hpsz : size p <> 0%nat).
  { unfold size. rewrite Hpshape. simpl. lia. }
  clearbody p.
  destruct (added_axis_roundtrip p Hpwf ltac:(lia)) as [Hfirst Hlast].
  destruct (inclusion_test_spec cfg img_max p Hpsz) as (b & Ht & _).
  assert (Hacc : accepted cfg img_max p = b) by (unfold accepted; rewrite Ht; reflexivity).
  rewrite Hacc.
  unfold z_body. unfold bind at 1. unfold lift at 1. rewrite Hp, Hnd. simpl.
  assert (Hsel : (if ch_first cfg
                  then getitem_first_2d
                         (if ch_first cfg then newaxis_first p else newaxis_last p) 0
                  else getitem_last
                         (if ch_first cfg then newaxis_first p else newaxis_last p) 0)
                 = Ok p) by (destruct (ch_first cfg); assumption).
  assert (Hn1 : shape_at (if ch_first cfg then newaxis_first p else newaxis_last p)
                  (ch_ax cfg) = Ok 1%nat).
  { unfold ch_ax, shape_at, getitem. destruct (ch_first cfg); simpl.
    - reflexivity.
    - rewrite Hpshape. reflexivity. }
  unfold bind at 1. unfold lift at 1. rewrite Hn1. simpl.
  unfold bind at 1.
  rewrite (channel_body_2d interp cfg img_max 0 w _ p st dir n d entries b
             Hw Hpos Hsel Hnd Hdir Hfs Hn Hd Ht).
  destruct b; simpl; destruct (size_reached cfg _); reflexivity.
Qed.

(** X6: on a stack of shape (Z, Y, X) and one wavelength, the z-loop
    returns normally and writes exactly the frames at the given depths
    that the inclusion test accepts, in the order of the depths, numbered
    from the counter onwards; the counter ends increased by their number. *)
Theorem X6_grayscale_stack_exports_accepted_frames
    (img : ndarray) (img_max : Z) (nz ny nx : nat) (w : Z) (dir : string)
    (zs : list nat) :
  shape img = [nz; ny; nx] ->
  well_formed img ->
  (ny * nx <> 0)%nat ->
  wv cfg !! 0%nat = Some w ->
  0 < w ->
  Forall (fun z => (z < nz)%nat) zs ->
  forall (st : state) (n d : Z) (entries : list string),
  wavedirs st !! 0%nat = Some dir ->
  fs st !! dir = Some entries ->
  num_slc st !! 0%nat = Some n ->
  ds_size st !! 0%nat = Some d ->
  let out := z_loop interp cfg img img_max zs st in
  let kept := List.filter (accepted cfg img_max) (frame img <$> zs) in
  snd out = Ok tt /\
  written (fst out)
  = written st
    ++ imap (fun k p =>
               exported_file dir (n + Z.of_nat k) (image_out interp cfg p) 0)
         kept /\
  num_slc (fst out) !! 0%nat = Some (n + Z.of_nat (length kept)).
Proof.
  intros Hs Hwf Hsz Hw Hpos Hzs.
  induction Hzs as [|z zs Hz _ IH]; intros st n d entries Hdir Hfs Hn Hd; simpl.
  - rewrite app_nil_r, Z.add_0_r. auto.
  - unfold bind at 1 2 3.
    rewrite (z_body_grayscale img img_max z nz ny nx w st dir n d entries
               Hs Hwf Hsz Hz Hw Hpos Hdir Hfs Hn Hd).
    destruct (accepted cfg img_max (frame img z)) eqn:Hacc; simpl.
    + set (st1 := state_out st 0 dir n d entries
                    (image_out interp cfg (frame img z))).
      assert (Hlt : (0 < length (num_slc st))%nat) by (eapply lookup_lt_Some; eauto).
      assert (Hlt' : (0 < length (ds_size st))%nat) by (eapply lookup_lt_Some; eauto).
      destruct (IH st1 (n + 1) _ _ Hdir
                  ltac:(unfold st1; simpl; apply lookup_insert_eq)
                  ltac:(unfold st1; simpl; apply list_lookup_insert_eq; exact Hlt)
                  ltac:(unfold st1; simpl; apply list_lookup_insert_eq; exact Hlt'))
        as (Hok & Hwr & Hcnt).
      split; [exact Hok|]. split.
      * rewrite Hwr. unfold st1. simpl. rewrite <- app_assoc. simpl.
        rewrite Z.add_0_r. do 2 f_equal.
        apply imap_ext. intros k p _. unfold compose.
        rewrite Nat2Z.inj_succ. f_equal. lia.
      * rewrite Hcnt. f_equal. rewrite Nat2Z.inj_succ. unfold fmap. lia.
    + apply (IH st n d entries Hdir Hfs Hn Hd).
Qed.

End Grayscale.

Lemma X6_witness :
  let out :=
    Curator.z_loop Sample.flat_interp Sample.cfg_one Sample.stack_bright 65535
      [0; 2]%nat Sample.st_one in
  let kept :=
    List.filter (Props.accepted Sample.cfg_one 65535)
      (Props.frame Sample.stack_bright <$> [0; 2]%nat) in
  snd out = Ok tt /\
  Curator.written (fst out)
  = Curator.written Sample.st_one
    ++ imap (fun k p =>
               Spec.exported_file "out/obj_638nm" (0 + Z.of_nat k)
                 (Spec.image_out Sample.flat_interp Sample.cfg_one p) 0)
         kept /\
  Curator.num_slc (fst out) !! 0%nat = Some (0 + Z.of_nat (length kept)).
Proof.
  apply (X6_grayscale_stack_exports_accepted_frames Sample.flat_interp
           Sample.cfg_one Sample.stack_bright 65535 3 2 2 638 "out/obj_638nm"
           [0; 2]%nat) with (d := 0) (entries := []).
  - reflexivity.
  - reflexivity.
  - simpl. lia.
  - reflexivity.
  - lia.
  - repeat constructor.
  - reflexivity.
  - vm_compute. reflexivity.
  - reflexivity.
  - reflexivity.
Defined.

(** ** Folders and channel indices *)

Section FolderIndex.
Import Np Curator Spec Props.
Variable interp : ndarray -> list nat -> list Q.
Variable cfg : config.

Lemma filter_split_length (l : list Z) :
  Nat.add (length (List.filter (fun w => negb (w =? -1)) l))
    (length (List.filter (fun w => w =? -1) l))
  = length l.
Proof.
  induction l as [|x l IH]; simpl; [reflexivity|].
  destruct (x =? -1); simpl; lia.
Qed.

Lemma built_wavedirs_length :
  length (built_wavedirs cfg)
  = (length (wv cfg) - sentinels_before cfg (length (wv cfg)))%nat.
Proof.
  unfold built_wavedirs, sentinels_before.
  rewrite length_fmap, firstn_all.
  pose proof (filter_split_length (wv cfg)). lia.
Qed.

(** X7: [wavedirs] is filled only for the entries other than -1, so the
    folder of channel [c] is found at index [c] minus the number of
    sentinel entries before [c] -- at index [c], where the export cell
    looks, only when no sentinel precedes. *)
Theorem X7_folder_index_is_shifted_by_sentinels (c : nat) (w : Z) :
  wv cfg !! c = Some w ->
  w <> -1 ->
  built_wavedirs cfg !! (c - sentinels_before cfg c)%nat
  = Some (wavedir_of cfg w).
Proof.
  intros Hc Hw. unfold built_wavedirs.
  rewrite <- (take_drop_middle (wv cfg) c w Hc) at 1.
  rewrite List.filter_app. simpl.
  destruct (Z.eqb_spec w (-1)) as [|_]; [contradiction|]. simpl.
  rewrite fmap_app. simpl. unfold sentinels_before.
  pose proof (filter_split_length (take c (wv cfg))) as Hsplit.
  assert (Hlen : length (take c (wv cfg)) = c).
  { rewrite length_take. apply lookup_lt_Some in Hc. lia. }
  rewrite Hlen in Hsplit.
  assert (Hidx : Nat.sub c (length (List.filter (fun w0 => w0 =? -1) (take c (wv cfg))))
                 = length (wavedir_of cfg
                             <$> List.filter (fun w0 => negb (w0 =? -1))
                                   (take c (wv cfg)))).
  { rewrite length_fmap. lia. }
  rewrite Hidx, lookup_app_r by lia. rewrite Nat.sub_diag. reflexivity.
Qed.

(** X8: when [wv] has a sentinel entry, [wavedirs] is shorter than [wv],
    and an accepted slice of the last channel cannot be written: the
    iteration raises [IndexError] at [wavedirs[c]], before anything is
    written or counted. *)
Theorem X8_last_channel_after_sentinel_raises
    (img_max : Z) (c : nat) (w : Z) (slc plane : ndarray) (st : state) :
  -1 ∈ wv cfg ->
  S c = length (wv cfg) ->
  wv cfg !! c = Some w ->
  0 < w ->
  wavedirs st = built_wavedirs cfg ->
  (if ch_first cfg then getitem_first_2d slc c else getitem_last slc c)
    = Ok plane ->
  ndim plane = 2%nat ->
  size plane <> 0%nat ->
  criteria_hold cfg img_max plane ->
  channel_body interp cfg img_max c slc st = (st, Raised IndexError).
Proof.
  intros Hsent Hlast Hw Hpos Hdirs Hsel Hnd Hsz Hcrit.
  assert (Hshort : wavedirs st !! c = None).
  { apply lookup_ge_None_2. rewrite Hdirs, built_wavedirs_length.
    assert (0 < sentinels_before cfg (length (wv cfg)))%nat; [|lia].
    unfold sentinels_before. rewrite firstn_all.
    apply list_elem_of_In in Hsent.
    assert (Hin : In (-1) (List.filter (fun w0 => w0 =? -1) (wv cfg)))
      by (apply List.filter_In; split; [exact Hsent|reflexivity]).
    destruct (List.filter (fun w0 => w0 =? -1) (wv cfg)); [destruct Hin|simpl; lia]. }
  destruct (inclusion_test_spec cfg img_max plane Hsz) as (b & Ht & Hb).
  assert (b = true) as -> by (apply Hb; exact Hcrit).
  assert (exists h0 w0, shape plane = [h0; w0]) as (h0 & w0 & Hs).
  { unfold ndim in Hnd. destruct (shape plane) as [|a [|b [|? ?]]]; try discriminate.
    eauto. }
  unfold channel_body.
  unfold bind at 1. unfold lift at 1. unfold getitem at 1. rewrite Hw.
  destruct (Z.ltb_spec 0 w) as [_|]; [|lia].
  unfold bind at 1. unfold lift at 1. rewrite Hsel.
  unfold bind at 1. unfold lift at 1. rewrite Ht.
  unfold bind at 1. unfold export_slice, shape_at.
  destruct (x_shp_out cfg) as [x|]; run_monad.
  - rewrite Hs. simpl. rewrite (resize_2d interp plane h0 w0 x Hs). simpl.
    rewrite Hshort. reflexivity.
  - rewrite Hshort. reflexivity.
Qed.

End FolderIndex.

Lemma X7_witness :
  Spec.built_wavedirs Sample2.cfg_sentinel
    !! (1 - Props.sentinels_before Sample2.cfg_sentinel 1)%nat
  = Some (Curator.wavedir_of Sample2.cfg_sentinel 488).
Proof.
  apply X7_folder_index_is_shifted_by_sentinels; [reflexivity|lia].
Defined.

Lemma X8_witness :
  Curator.channel_body Sample.flat_interp Sample2.cfg_sentinel 65535 1
    Sample2.volume_two Sample2.st_sentinel
  = (Sample2.st_sentinel, Raised IndexError).
Proof.
  apply (X8_last_channel_after_sentinel_raises Sample.flat_interp
           Sample2.cfg_sentinel 65535 1 488 Sample2.volume_two
           Sample2.plane_second).
  - repeat constructor.
  - reflexivity.
  - reflexivity.
  - lia.
  - reflexivity.
  - vm_compute. reflexivity.
  - reflexivity.
  - vm_compute. discriminate.
  - criteria_computed.
Defined.

(** ** The size budget *)

Section Budget.
Import Np Curator Spec Props.
Variable interp : ndarray -> list nat -> list Q.

Lemma bind_ext {A B : Type} (m1 m2 : M A) (k1 k2 : A -> M B) (st : state) :
  (forall s, m1 s = m2 s) ->
  (forall a s, k1 a s = k2 a s) ->
  bind m1 k1 st = bind m2 k2 st.
Proof.
  intros Hm Hk. unfold bind. rewrite Hm.
  destruct (m2 st) as [s [a|e]]; [apply Hk|reflexivity].
Qed.

Section TwoBudgets.
Variables (wv0 : list Z) (outdir0 : string) (chf : bool) (obj0 : string).
Variables (bg thr mthr b1 b2 um px : Q) (x : option nat).
Hypothesis Hb1 : (1 < b1)%Q.
Hypothesis Hb2 : (1 < b2)%Q.

Local Abbreviation c1 := (mk_config wv0 outdir0 chf obj0 bg thr mthr b1 um px x).
Local Abbreviation c2 := (mk_config wv0 outdir0 chf obj0 bg thr mthr b2 um px x).

Lemma channel_body_budget (img_max : Z) (c : nat) (slc : ndarray) (st : state) :
  channel_body interp c1 img_max c slc st = channel_body interp c2 img_max c slc st.
Proof.
  unfold channel_body.
  apply bind_ext; [reflexivity|]. intros w s.
  change (wv c2) with (wv c1). change (ch_first c2) with (ch_first c1).
  destruct (0 <? w); [|reflexivity].
  apply bind_ext; [reflexivity|]. intros plane s1.
  apply bind_ext; [reflexivity|]. intros ok s2.
  apply bind_ext; [reflexivity|]. intros img s3.
  unfold bind, gets, ret. cbv beta iota. unfold id.
  rewrite (size_reached_false c1 s3 Hb1), (size_reached_false c2 s3 Hb2).
  reflexivity.
Qed.

Lemma channel_loop_budget (img_max : Z) (cs : list nat) :
  forall slc st,
    channel_loop interp c1 img_max cs slc st
    = channel_loop interp c2 img_max cs slc st.
Proof.
  induction cs as [|c cs IH]; intros slc st; simpl; [reflexivity|].
  apply bind_ext; [apply channel_body_budget|].
  intros r s. destruct (snd r); [reflexivity|apply IH].
Qed.

Lemma z_loop_budget (img : ndarray) (img_max : Z) (zs : list nat) :
  forall st, z_loop interp c1 img img_max zs st = z_loop interp c2 img img_max zs st.
Proof.
  induction zs as [|z zs IH]; intros st; simpl; [reflexivity|].
  apply bind_ext; [|intros _; apply IH].
  intros s. unfold z_body.
  apply bind_ext; [reflexivity|]. intros slc s1.
  apply bind_ext; [reflexivity|]. intros n s2.
  apply channel_loop_budget.
Qed.

Lemma stack_loop_budget (step : Z) (stack_lst : list (result ndarray)) :
  forall st,
    stack_loop interp c1 step stack_lst st = stack_loop interp c2 step stack_lst st.
Proof.
  induction stack_lst as [|f l IH]; intros st; simpl; [reflexivity|].
  apply bind_ext; [|intros _; apply IH].
  intros s. unfold process_stack.
  apply bind_ext; [reflexivity|]. intros img s1.
  apply bind_ext; [reflexivity|]. intros img_max s2.
  apply bind_ext; [reflexivity|]. intros stop s3.
  apply bind_ext; [reflexivity|]. intros zs s4.
  apply z_loop_budget.
Qed.

Lemma io_loop_budget (ws : list Z) :
  forall c st, io_loop c1 c ws st = io_loop c2 c ws st.
Proof.
  induction ws as [|w ws IH]; intros c st; simpl; [reflexivity|].
  apply bind_ext; [reflexivity|]. intros _ s. apply IH.
Qed.

Lemma notebook_budget (stack_lst : list (result ndarray)) (st : state) :
  notebook interp c1 stack_lst st = notebook interp c2 stack_lst st.
Proof.
  unfold notebook.
  apply bind_ext.
  { intros s. unfold io_cell.
    apply bind_ext; [reflexivity|]. intros _ s1.
    apply bind_ext; [reflexivity|]. intros _ s2.
    apply io_loop_budget. }
  intros _ s. unfold export_cell.
  apply bind_ext; [reflexivity|]. intros _ s1.
  apply bind_ext; [reflexivity|]. intros step s2.
  apply stack_loop_budget.
Qed.

End TwoBudgets.

(** X9: the size test compares the truth value of [np.all] with the
    budget, so any two budgets above one byte give the same run: the same
    files, counters, byte totals and outcome. The value of
    [max_dset_size] has no effect on what is exported. *)
Theorem X9_budget_has_no_effect
    (cfg1 cfg2 : config) (stack_lst : list (result ndarray)) (st : state) :
  same_but_budget cfg1 cfg2 ->
  (1 < max_dset_size cfg1)%Q ->
  (1 < max_dset_size cfg2)%Q ->
  notebook interp cfg1 stack_lst st = notebook interp cfg2 stack_lst st.
Proof.
  destruct cfg1, cfg2. unfold same_but_budget. simpl.
  intros (-> & -> & -> & -> & -> & -> & -> & -> & -> & ->) H1 H2.
  apply notebook_budget; assumption.
Qed.

End Budget.

Lemma X9_witness :
  Curator.notebook Sample.flat_interp Sample.cfg_one [Ok Sample.stack_bright]
    (Curator.fresh ∅)
  = Curator.notebook Sample.flat_interp Sample2.cfg_large [Ok Sample.stack_bright]
      (Curator.fresh ∅).
Proof.
  apply X9_budget_has_no_effect.
  - repeat split; reflexivity.
  - reflexivity.
  - reflexivity.
Defined.

(** ** The I/O cell and the folders *)

Section IoFolders.
Import Np Curator Spec Props.
Variable cfg : config.
Arguments mkdir : simpl never.

Lemma entries_kept_refl (st : state) : entries_kept (fs st) st.
Proof. intros d entries H. exists []. rewrite app_nil_r. exact H. Qed.

Lemma io_body_keeps (fs0 : gmap string (list string)) (c : nat) (w : Z) (st : state) :
  entries_kept fs0 st ->
  entries_kept fs0 (fst (io_body cfg c w st)) /\
  ds_size (fst (io_body cfg c w st)) = ds_size st.
Proof.
  intros Hk. unfold io_body.
  destruct (w =? -1); [split; [exact Hk|reflexivity]|].
  run_monad.
  destruct (fs st !! wavedir_of cfg w) as [entries|] eqn:E; simpl;
    (split; [|reflexivity]).
  - exact Hk.
  - intros d entries Hd. simpl.
    destruct (Hk d entries Hd) as [a1 H1].
    destruct (mkdir_parents_grows d (entries ++ a1)
                (String.length (wavedir_of cfg w)) (wavedir_of cfg w) (fs st) H1)
      as [a2 H2].
    exists (a1 ++ a2). rewrite app_assoc. exact H2.
Qed.

Lemma io_loop_keeps (fs0 : gmap string (list string)) (ws : list Z) :
  forall c st,
    entries_kept fs0 st ->
    entries_kept fs0 (fst (io_loop cfg c ws st)) /\
    ds_size (fst (io_loop cfg c ws st)) = ds_size st.
Proof.
  induction ws as [|w ws IH]; intros c st Hk; simpl; [auto|].
  destruct (io_body_keeps fs0 c w st Hk) as [Hk1 Hd1].
  unfold bind.
  destruct (io_body cfg c w st) as [st1 [[]|e]]; simpl in *; [|auto].
  destruct (IH (S c) st1 Hk1) as [Hk2 Hd2]. split; [exact Hk2|congruence].
Qed.

Lemma io_cell_keeps (st : state) :
  entries_kept (fs st) (fst (io_cell cfg st)) /\
  ds_size (fst (io_cell cfg st)) = ds_size st.
Proof.
  unfold io_cell. unfold bind at 1. unfold modify at 1.
  unfold bind at 1. unfold modify at 1.
  set (st0 := set_wavedirs [] (set_num_slc (replicate (length (wv cfg)) 0) st)).
  destruct (io_loop_keeps (fs st) (wv cfg) 0%nat st0 (entries_kept_refl st))
    as [H1 H2].
  split; [exact H1|exact H2].
Qed.

(** X10: when the I/O cell completes, it has written no image and
    changed no byte total, and it has touched the file system only by
    making folders: no folder has lost an entry (a folder lists what it
    listed, followed by the names of the folders made in it), and the
    output folder of a wavelength that existed has exactly the entries it
    had, while one that did not exist is absent or empty. Afterwards
    [wavedirs] lists the folders of the entries other than -1, in their
    order, and each of them exists. *)
Theorem X10_io_cell_only_creates_folders (st : state) :
  let st' := fst (io_cell cfg st) in
  snd (io_cell cfg st) = Ok tt ->
  written st' = written st /\
  ds_size st' = ds_size st /\
  entries_kept (fs st) st' /\
  folders_kept cfg (fs st) st' /\
  wavedirs st' = built_wavedirs cfg /\
  Forall (fun d => is_Some (fs st' !! d)) (wavedirs st').
Proof.
  intros st' _.
  destruct (io_cell_spec cfg st) as (_ & _ & Hwr & _ & Hdirs & Hmk & Hkept).
  destruct (io_cell_keeps st) as [Hk Hd].
  repeat split; try assumption.
  subst st'. rewrite Hdirs. unfold built_wavedirs.
  apply Forall_fmap, Forall_forall. intros w Hin. simpl.
  apply list_elem_of_In, List.filter_In in Hin as [Hin Hw].
  apply Hmk; [apply list_elem_of_In, Hin|].
  intros ->. discriminate Hw.
Qed.

End IoFolders.

(** The theorem on the resumed dataset: the folder of the second
    wavelength is made, empty, and its name is entered in the listing of
    the output directory, after the two entries that were there; the
    folder of the first wavelength keeps its five entries. *)
Lemma X10_witness :
  let st := Curator.fresh Sample2.fs_resume in
  let st' := fst (Curator.io_cell Sample2.cfg_resume st) in
  (snd (Curator.io_cell Sample2.cfg_resume st) = Ok tt /\
   Curator.fs st' !! "out"%string
   = Some ["obj_638nm"; "readme.txt"; "obj_488nm"]%string /\
   Curator.fs st' !! "out/obj_488nm"%string = Some [] /\
   Curator.fs st' !! "out/obj_638nm"%string
   = Some ["0.tiff"; "1.TIF"; "notes.txt"; ".tiff"; "2.tiff.bak"]%string) /\
  Curator.written st' = Curator.written st /\
  Curator.ds_size st' = Curator.ds_size st /\
  Spec.entries_kept (Curator.fs st) st' /\
  Spec.folders_kept Sample2.cfg_resume (Curator.fs st) st' /\
  Curator.wavedirs st' = Spec.built_wavedirs Sample2.cfg_resume /\
  Forall (fun d => is_Some (Curator.fs st' !! d)) (Curator.wavedirs st').
Proof.
  split; [vm_compute; repeat split|].
  apply (X10_io_cell_only_creates_folders Sample2.cfg_resume
           (Curator.fresh Sample2.fs_resume)).
  vm_compute. reflexivity.
Defined.

(** [mkdir] with [parents=True] below a directory that does not exist:
    the output directory and its parent are made on the way, each entered
    in the listing of its own parent, up to the current directory. *)
Example mkdir_makes_ancestors :
  Curator.fs (fst (Curator.io_cell Sample2.cfg_deep (Curator.fresh ∅)))
  = {[ "."%string := ["data"%string];
       "data"%string := ["out"%string];
       "data/out"%string := ["obj_638nm"%string];
       "data/out/obj_638nm"%string := [] ]}.
Proof. vm_compute. reflexivity. Qed.

(** ** Resuming a dataset *)

Section Resume.
Import Np Curator Spec Props.

Lemma append_inv_l (s t1 t2 : string) : s +:+ t1 = s +:+ t2 -> t1 = t2.
Proof. induction s as [|a s IH]; simpl; [auto|]. intros [= H]. auto. Qed.

Lemma append_inv_r (t : string) :
  forall s1 s2 : string, s1 +:+ t = s2 +:+ t -> s1 = s2.
Proof.
  induction s1 as [|a s1 IH]; intros [|b s2] H; simpl in H.
  - reflexivity.
  - apply (f_equal String.length) in H. simpl in H.
    rewrite ?length_append in H. simpl in H. lia.
  - apply (f_equal String.length) in H. simpl in H.
    rewrite ?length_append in H. simpl in H. lia.
  - injection H as -> H. f_equal. apply IH, H.
Qed.

(** Different wavelengths have different folders. *)
Lemma wavedir_of_inj (cfg : config) (w1 w2 : Z) :
  wavedir_of cfg w1 = wavedir_of cfg w2 -> w1 = w2.
Proof.
  unfold wavedir_of, Pathlib.joinpath. intros H.
  do 4 apply append_inv_l in H.
  apply append_inv_r in H. apply str_inj, H.
Qed.

Lemma length_names_from (a : Z) (k : nat) : length (names_from a k) = k.
Proof. unfold names_from. rewrite length_fmap. apply length_seq. Qed.

Lemma names_from_elem (a : Z) (k : nat) (s : string) :
  s ∈ names_from a k ->
  exists j : nat, (j < k)%nat /\ s = (Pathlib.str (a + Z.of_nat j) +:+ ".tiff")%string.
Proof.
  unfold names_from. intros H. apply list_elem_of_fmap in H as (j & -> & Hj).
  apply elem_of_seq in Hj. exists j. split; [lia|reflexivity].
Qed.

Lemma names_from_snoc (k : nat) :
  names_from 0 (S k)
  = names_from 0 k ++ [(Pathlib.str (Z.of_nat k) +:+ ".tiff")%string].
Proof.
  replace (S k) with (k + 1)%nat by lia.
  rewrite names_from_app. f_equal. unfold names_from. simpl.
  rewrite Z.add_0_l, Z.add_0_r. reflexivity.
Qed.

Lemma filter_tiff_snoc (entries : list string) (name : string) :
  is_tiff_name name = true ->
  List.filter is_tiff_name (entries ++ [name])
  = List.filter is_tiff_name entries ++ [name].
Proof. intros H. rewrite List.filter_app. simpl. rewrite H. reflexivity. Qed.

(** The export of one image keeps the folders numbered: the name
    [{n}.tiff] is new in the folder, and is the next one. *)
Lemma numbered_out (st : state) (c : nat) (dir : string) (n d : Z)
    (entries : list string) (img : ndarray) :
  wavedirs st !! c = Some dir ->
  fs st !! dir = Some entries ->
  num_slc st !! c = Some n ->
  numbered st ->
  numbered (state_out st c dir n d entries img).
Proof.
  intros Hdir Hfs Hn [Hnd Hnum]. split; [exact Hnd|].
  intros c' dir' n' Hdir' Hn'. simpl in Hdir', Hn'.
  destruct (decide (c' = c)) as [->|Hne].
  - assert (dir' = dir) as -> by congruence.
    rewrite list_lookup_insert_eq in Hn' by (eapply lookup_lt_Some; eauto).
    injection Hn' as <-.
    destruct (Hnum c dir n Hdir Hn) as (Hpos & entries0 & Hfs0 & Hfilter).
    assert (entries0 = entries) as -> by congruence.
    split; [lia|].
    set (name := (Pathlib.str n +:+ ".tiff")%string).
    assert (Hnew : name ∉ entries).
    { intros Hin.
      assert (Hin' : name ∈ List.filter is_tiff_name entries).
      { apply list_elem_of_In, List.filter_In. split.
        - apply list_elem_of_In, Hin.
        - apply exported_name_tiff. }
      rewrite Hfilter in Hin'.
      apply names_from_elem in Hin' as (j & Hj & Hname).
      unfold name in Hname. apply append_inv_r, str_inj in Hname. lia. }
    simpl. rewrite lookup_insert_eq. eexists. split; [reflexivity|].
    fold name. rewrite bool_decide_eq_false_2 by exact Hnew.
    rewrite filter_tiff_snoc by apply exported_name_tiff.
    replace (Z.to_nat (n + 1)) with (S (Z.to_nat n)) by lia.
    rewrite names_from_snoc, Z2Nat.id by lia.
    apply Permutation_app_tail, Hfilter.
  - rewrite list_lookup_insert_ne in Hn' by congruence.
    destruct (Hnum c' dir' n' Hdir' Hn') as (Hpos & entries' & Hfs' & Hfilter).
    split; [exact Hpos|]. exists entries'. split; [|exact Hfilter].
    simpl. rewrite lookup_insert_ne; [exact Hfs'|].
    intros <-. apply Hne. eapply NoDup_lookup; eauto.
Qed.

Lemma stack_loop_numbered (interp : ndarray -> list nat -> list Q) (cfg : config)
    (step : Z) (stack_lst : list (result ndarray)) :
  preserves (guarded keeps_numbered) (stack_loop interp cfg step stack_lst).
Proof.
  apply stack_loop_preserves.
  - intros st H. exact H.
  - intros a b c Hab Hbc H. auto.
  - intros st c w dir n d entries img _ _ Hdir Hfs Hn _ H.
    eapply numbered_out; eassumption.
Qed.

Lemma stack_loop_length (interp : ndarray -> list nat -> list Q) (cfg : config)
    (step : Z) (stack_lst : list (result ndarray)) :
  preserves (guarded (fun st st' => length (num_slc st') = length (num_slc st)))
    (stack_loop interp cfg step stack_lst).
Proof.
  apply stack_loop_preserves.
  - reflexivity.
  - intros a b c Hab Hbc. congruence.
  - intros. simpl. apply length_insert.
Qed.

Lemma filter_no_sentinel (l : list Z) :
  Forall (fun w => w <> -1) l -> List.filter (fun w => negb (w =? -1)) l = l.
Proof.
  induction 1 as [|w l Hw _ IH]; simpl; [reflexivity|].
  destruct (Z.eqb_spec w (-1)); [contradiction|]. simpl. rewrite IH. reflexivity.
Qed.

Section ResumeRun.
Variable interp : ndarray -> list nat -> list Q.
Variable cfg : config.
Hypothesis no_sentinel : Forall (fun w => w <> -1) (wv cfg).
Hypothesis distinct : NoDup (wv cfg).

Lemma built_wavedirs_all : built_wavedirs cfg = wavedir_of cfg <$> wv cfg.
Proof.
  unfold built_wavedirs. rewrite filter_no_sentinel by exact no_sentinel.
  reflexivity.
Qed.

Lemma built_wavedirs_NoDup : NoDup (built_wavedirs cfg).
Proof.
  rewrite built_wavedirs_all. apply NoDup_fmap_2; [|exact distinct].
  intros w1 w2. apply wavedir_of_inj.
Qed.

(** After the I/O cell on a numbered file system the session is
    numbered. *)
Lemma io_cell_numbered (fs0 : gmap string (list string)) :
  fs_numbered cfg fs0 ->
  numbered (fst (io_cell cfg (fresh fs0))).
Proof.
  intros Hfs0.
  destruct (io_cell_spec cfg (fresh fs0))
    as (_ & _ & _ & Hinit & Hdirs & Hmk & Hkept).
  set (st1 := fst (io_cell cfg (fresh fs0))) in *. simpl in Hinit, Hkept.
  split; [rewrite Hdirs; apply built_wavedirs_NoDup|].
  intros c dir n Hdir Hn.
  rewrite Hdirs, built_wavedirs_all, list_lookup_fmap in Hdir.
  destruct (wv cfg !! c) as [w|] eqn:Hw; [|discriminate]. injection Hdir as <-.
  assert (Hne : w <> -1).
  { rewrite Forall_forall in no_sentinel. apply no_sentinel.
    apply list_elem_of_lookup. eauto. }
  rewrite (Hinit c w Hw Hne) in Hn. injection Hn as <-.
  specialize (Hkept w). unfold fs_count.
  destruct (fs0 !! wavedir_of cfg w) as [entries|] eqn:E.
  - split; [unfold count_tiff; lia|]. exists entries. split; [exact Hkept|].
    unfold count_tiff. rewrite Nat2Z.id.
    apply (Hfs0 w entries); [apply list_elem_of_lookup; eauto|exact E].
  - split; [lia|]. exists []. split; [|reflexivity].
    destruct Hkept as [Hnone|Hsome]; [|exact Hsome].
    destruct (Hmk w ltac:(apply list_elem_of_lookup; eauto) Hne) as [x Hx].
    congruence.
Qed.

(** X11: with distinct wavelengths and no sentinel, a run that starts on
    folders whose TIFF files are [0.tiff], [1.tiff], ... (or that do not
    exist) leaves them so, whether it completes or stops on an exception;
    and the I/O cell of the next run sets every counter to the value it
    had when this run ended. No exported file is ever overwritten, and the
    numbering goes on without a gap. *)
Theorem X11_next_run_resumes_the_numbering
    (fs0 : gmap string (list string)) (stack_lst : list (result ndarray)) :
  fs_numbered cfg fs0 ->
  let st2 := fst (notebook interp cfg stack_lst (fresh fs0)) in
  fs_numbered cfg (fs st2) /\
  num_slc (fst (io_cell cfg (fresh (fs st2)))) = num_slc st2.
Proof.
  intros Hfs0 st2.
  destruct (io_cell_spec cfg (fresh fs0)) as (Hok & Hlen & _ & _ & Hdirs & _ & _).
  pose proof (io_cell_numbered fs0 Hfs0) as Hnum1.
  set (st1 := fst (io_cell cfg (fresh fs0))) in *.
  (* the export cell from [st1] *)
  set (st0 := set_ds_size (replicate (length (wv cfg)) 0) st1).
  assert (Harr : arrays_ok st0).
  { unfold arrays_ok, st0. simpl. rewrite length_replicate. exact Hlen. }
  assert (Hnum0 : numbered st0) by exact Hnum1.
  assert (Hrun : st2 = fst (bind (lift (z_strd cfg))
                              (fun step => stack_loop interp cfg step stack_lst) st0)).
  { subst st2. unfold notebook. unfold bind at 1.
    destruct (io_cell cfg (fresh fs0)) as [s r]. simpl in Hok. subst r.
    reflexivity. }
  assert (Hend : numbered st2 /\ length (num_slc st2) = length (wv cfg)
                 /\ wavedirs st2 = built_wavedirs cfg).
  { rewrite Hrun. unfold bind, lift.
    destruct (z_strd cfg) as [step|e]; simpl.
    - destruct (stack_loop_numbered interp cfg step stack_lst st0 Harr) as [_ H1].
      destruct (stack_loop_length interp cfg step stack_lst st0 Harr) as [_ H2].
      destruct (stack_loop_same_folders interp cfg step stack_lst st0 Harr)
        as [_ [H3 _]].
      split; [apply H1, Hnum0|]. split; [rewrite H2; exact Hlen|].
      rewrite H3. exact Hdirs.
    - split; [exact Hnum0|]. split; [exact Hlen|exact Hdirs]. }
  destruct Hend as ([Hnd2 Hnum2] & Hlen2 & Hdirs2).
  assert (Hcount : forall c w, wv cfg !! c = Some w ->
            exists n entries,
              num_slc st2 !! c = Some n /\ 0 <= n /\
              fs st2 !! wavedir_of cfg w = Some entries /\
              List.filter is_tiff_name entries ≡ₚ names_from 0 (Z.to_nat n)).
  { intros c w Hw.
    assert (Hc : (c < length (num_slc st2))%nat)
      by (rewrite Hlen2; eapply lookup_lt_Some; eauto).
    destruct (lookup_lt_is_Some_2 _ _ Hc) as [n Hn].
    assert (Hdir : wavedirs st2 !! c = Some (wavedir_of cfg w)).
    { rewrite Hdirs2, built_wavedirs_all, list_lookup_fmap, Hw. reflexivity. }
    destruct (Hnum2 c _ n Hdir Hn) as (Hpos & entries & Hfs & Hfilter).
    exists n, entries. auto. }
  split.
  - intros w entries Hin Hfs. apply list_elem_of_lookup in Hin as [c Hw].
    destruct (Hcount c w Hw) as (n & entries' & _ & _ & Hfs' & Hfilter).
    assert (entries' = entries) as -> by congruence.
    assert (Hl : length (List.filter is_tiff_name entries) = Z.to_nat n)
      by (rewrite Hfilter; apply length_names_from).
    unfold numbered_folder. rewrite Hl. exact Hfilter.
  - destruct (io_cell_spec cfg (fresh (fs st2)))
      as (_ & Hlen3 & _ & Hinit3 & _ & _ & _).
    simpl in Hinit3.
    apply list_eq. intros c.
    destruct (wv cfg !! c) as [w|] eqn:Hw.
    + assert (Hne : w <> -1).
      { rewrite Forall_forall in no_sentinel. apply no_sentinel.
        apply list_elem_of_lookup. eauto. }
      rewrite (Hinit3 c w Hw Hne).
      destruct (Hcount c w Hw) as (n & entries & Hn & Hpos & Hfs & Hfilter).
      rewrite Hn. f_equal. unfold fs_count. rewrite Hfs.
      unfold count_tiff. rewrite Hfilter, length_names_from. lia.
    + apply lookup_ge_None in Hw.
      rewrite !(proj2 (lookup_ge_None _ _)); [reflexivity|lia|lia].
Qed.

End ResumeRun.

End Resume.

Lemma X11_witness :
  let st2 :=
    fst (Curator.notebook Sample.flat_interp Sample.cfg_one [Ok Sample.stack_bright]
           (Curator.fresh ∅)) in
  Props.fs_numbered Sample.cfg_one (Curator.fs st2) /\
  Curator.num_slc (fst (Curator.io_cell Sample.cfg_one (Curator.fresh (Curator.fs st2))))
  = Curator.num_slc st2.
Proof.
  apply (X11_next_run_resumes_the_numbering Sample.flat_interp Sample.cfg_one).
  - repeat constructor. discriminate.
  - repeat constructor. intros H. inversion H.
  - intros w entries _ H. rewrite lookup_empty in H. discriminate H.
Defined.

(** ** The averaged model *)

Section AveragedModel.
Import ModelPrep.

(** X12: the averaged model has the shape of the model it was made from,
    whatever the crop window, for a wide and for a tall model alike. *)
Theorem X12_averaged_model_keeps_shape (crop_s crop_e : nat) (v : array2) :
  well_shaped v ->
  let out := average_along_x crop_s crop_e v in
  nrow out = nrow v /\ ncol out = ncol v /\ well_shaped out.
Proof.
  intros [Hrows Hcols] out. subst out. unfold average_along_x.
  destruct (Nat.ltb_spec (ncol v) (nrow v)) as [Htall|Hwide]; simpl.
  - split; [lia|]. split; [reflexivity|].
    unfold well_shaped. simpl. split.
    + rewrite length_fmap, length_seq. lia.
    + apply Forall_fmap, Forall_forall. intros j _. simpl.
      rewrite !length_fmap, length_seq. reflexivity.
  - split; [reflexivity|]. split; [lia|].
    unfold well_shaped. simpl. split.
    + rewrite !length_fmap. exact Hrows.
    + rewrite <- list_fmap_compose. apply Forall_fmap, Forall_forall.
      intros row _. simpl. rewrite length_replicate. lia.
Qed.

Lemma X12_witness :
  let out := average_along_x 1 3 wide_model in
  nrow out = nrow wide_model /\ ncol out = ncol wide_model /\ well_shaped out.
Proof.
  apply X12_averaged_model_keeps_shape.
  split; [reflexivity|]. repeat constructor.
Defined.

(** X13: every element of the averaged model is the mean of the cropped
    line that runs through it along the longer axis of the model: the
    model is constant along that axis, and [nan] throughout a line whose
    crop window is empty. *)
Theorem X13_averaged_model_entries (crop_s crop_e : nat) (v : array2) (i j : nat) :
  well_shaped v ->
  (i < nrow v)%nat ->
  (j < ncol v)%nat ->
  entry (average_along_x crop_s crop_e v) i j
  = Some (mean_line (crop_line crop_s crop_e (long_line v i j))).
Proof.
  intros [Hrows Hcols] Hi Hj. unfold average_along_x, long_line, entry.
  destruct (Nat.ltb_spec (ncol v) (nrow v)) as [Htall|Hwide]; simpl.
  - rewrite list_lookup_fmap, lookup_seq_lt by lia. simpl.
    rewrite <- !list_fmap_compose, list_lookup_fmap, lookup_seq_lt by exact Hj.
    simpl. rewrite lookup_replicate_2 by lia. reflexivity.
  - rewrite <- list_fmap_compose, list_lookup_fmap.
    destruct (lookup_lt_is_Some_2 (rows v) i ltac:(lia)) as [row Hrow].
    rewrite Hrow. simpl. rewrite lookup_replicate_2 by lia. reflexivity.
Qed.

Lemma X13_witness :
  entry (average_along_x 0 2 tall_model) 2 1
  = Some (mean_line (crop_line 0 2 (long_line tall_model 2 1))).
Proof.
  apply X13_averaged_model_entries.
  - split; [reflexivity|]. repeat constructor.
  - simpl. lia.
  - simpl. lia.
Defined.

End AveragedModel.

(** ** Several exported channels *)

Section SeveralChannels.
Import Np Curator Spec Props.
Variable interp : ndarray -> list nat -> list Q.
Variable cfg : config.

(** X14: over the whole loop on the stacks, whether it completes or stops
    on an exception, a channel whose wavelength is not positive keeps its
    counter and its byte total, and no file is written from an iteration
    for it. *)
Theorem X14_skipped_channel_untouched_by_run
    (c0 : nat) (w0 : Z) (step : Z) (stack_lst : list (result ndarray)) (st : state) :
  wv cfg !! c0 = Some w0 ->
  w0 <= 0 ->
  arrays_ok st ->
  let st' := fst (stack_loop interp cfg step stack_lst st) in
  num_slc st' !! c0 = num_slc st !! c0 /\
  ds_size st' !! c0 = ds_size st !! c0 /\
  exists new, written st' = written st ++ new /\ of_chan c0 new = [].
Proof.
  intros Hw Hle Harr st'.
  destruct (stack_loop_untouched interp cfg c0 w0 step stack_lst Hw Hle st Harr)
    as [_ H].
  exact H.
Qed.

(** What the statements under the inclusion test return is the slice, or
    what [resize] made of it. *)
Lemma export_slice_returns (c : nat) (slc img : ndarray) (st st' : state) :
  export_slice interp cfg c slc st = (st', Ok img) ->
  match x_shp_out cfg with
  | Some x => exists h, shape_at slc 0 = Ok h /\ Skimage.resize interp slc h x = Ok img
  | None => img = slc
  end.
Proof.
  unfold export_slice, imwrite, shape_at. intros E.
  destruct (x_shp_out cfg) as [x|]; run_monad.
  - destruct (shape slc !! 0%nat) as [h|]; simpl in E; [|discriminate].
    destruct (Skimage.resize interp slc h x) as [img0|e] eqn:Er; simpl in E;
      [|discriminate].
    exists h. split; [reflexivity|].
    destruct (wavedirs st !! c); simpl in E; [|discriminate].
    destruct (num_slc st !! c); simpl in E; [|discriminate].
    destruct (fs st !! s); simpl in E; [|discriminate].
    destruct (ds_size st !! c); simpl in E; [|discriminate].
    destruct (num_slc st !! c); simpl in E; [|discriminate].
    congruence.
  - destruct (wavedirs st !! c); simpl in E; [|discriminate].
    destruct (num_slc st !! c); simpl in E; [|discriminate].
    destruct (fs st !! s); simpl in E; [|discriminate].
    destruct (ds_size st !! c); simpl in E; [|discriminate].
    destruct (num_slc st !! c); simpl in E; [|discriminate].
    congruence.
Qed.

(** With the channel axis first, an iteration that returns leaves a
    two-dimensional array in [slc], and (for a budget above one byte) does
    not break. *)
Lemma channel_body_leaves_plane
    (img_max : Z) (c : nat) (w : Z) (slc slc' : ndarray) (brk : bool)
    (st st' : state) :
  ch_first cfg = true ->
  ndim slc = 3%nat ->
  wv cfg !! c = Some w ->
  0 < w ->
  (1 < max_dset_size cfg)%Q ->
  channel_body interp cfg img_max c slc st = (st', Ok (slc', brk)) ->
  ndim slc' = 2%nat /\ brk = false.
Proof.
  intros Hcf Hnd Hw Hpos Hmax E.
  unfold channel_body in E.
  unfold bind at 1 in E. unfold lift at 1 in E. unfold getitem in E.
  rewrite Hw in E. destruct (Z.ltb_spec 0 w) as [_|]; [|lia].
  rewrite Hcf in E.
  unfold bind at 1 in E. unfold lift at 1 in E.
  destruct (getitem_first_2d slc c) as [plane|e] eqn:Esel; [|discriminate].
  assert (Hplane : ndim plane = 2%nat).
  { unfold getitem_first_2d, getitem_first, ndim in *.
    rewrite Hnd in Esel. simpl in Esel.
    destruct (shape slc) as [|n rest]; [discriminate|].
    destruct (c <? n)%nat; [|discriminate].
    injection Esel as <-. simpl in *. lia. }
  unfold bind at 1 in E. unfold lift at 1 in E.
  destruct (inclusion_test cfg img_max plane) as [ok|e]; [|discriminate].
  unfold bind at 1 in E.
  destruct ok.
  - destruct (export_slice interp cfg c plane st) as [s1 [img|e]] eqn:Eexp;
      [|discriminate].
    unfold bind, gets, ret in E. simpl in E. injection E as <- <- <-.
    split; [|apply size_reached_false, Hmax].
    apply export_slice_returns in Eexp.
    destruct (x_shp_out cfg) as [x|]; [|subst img; exact Hplane].
    destruct Eexp as (h & _ & Hres).
    unfold Skimage.resize in Hres. rewrite Hplane in Hres. simpl in Hres.
    injection Hres as <-. reflexivity.
  - unfold bind, gets, ret in E. simpl in E. injection E as <- <- <-.
    split; [exact Hplane|apply size_reached_false, Hmax].
Qed.

(** The channel loop steps over channels whose wavelength is not
    positive. *)
Lemma channel_loop_skips (img_max : Z) (skipped rest : list nat) (slc : ndarray)
    (st : state) :
  Forall (fun c => exists w, wv cfg !! c = Some w /\ w <= 0) skipped ->
  channel_loop interp cfg img_max (skipped ++ rest) slc st
  = channel_loop interp cfg img_max rest slc st.
Proof.
  induction 1 as [|c l (w & Hw & Hle) _ IH]; [reflexivity|].
  simpl. unfold bind at 1.
  assert (E : channel_body interp cfg img_max c slc st = (st, Ok (slc, false))).
  { unfold channel_body. run_monad. rewrite Hw. simpl.
    destruct (Z.ltb_spec 0 w); [lia|reflexivity]. }
  rewrite E. simpl. exact IH.
Qed.

(** X15: with the channel axis first and a budget above one byte, the
    channel loop on the channels of one depth, (C, Y, X), never completes
    once two of them are exported: the first iteration replaces [slc] by
    a plane, and the selection of the next exported channel raises (unless
    the first iteration raised already). Channels that are not exported
    may lie between the two. *)
Theorem X15_channel_first_two_channels_always_raise
    (img_max : Z) (c1 c2 : nat) (w1 w2 : Z) (skipped cs : list nat)
    (slc : ndarray) (st : state) :
  ch_first cfg = true ->
  ndim slc = 3%nat ->
  wv cfg !! c1 = Some w1 -> 0 < w1 ->
  wv cfg !! c2 = Some w2 -> 0 < w2 ->
  Forall (fun c => exists w, wv cfg !! c = Some w /\ w <= 0) skipped ->
  (1 < max_dset_size cfg)%Q ->
  is_ok (snd (channel_loop interp cfg img_max (c1 :: skipped ++ c2 :: cs) slc st))
  = false.
Proof.
  intros Hcf Hnd Hw1 Hp1 Hw2 Hp2 Hskip Hmax.
  simpl. unfold bind at 1.
  destruct (channel_body interp cfg img_max c1 slc st) as [st1 [[slc1 brk]|e]] eqn:E1;
    [|reflexivity].
  destruct (channel_body_leaves_plane img_max c1 w1 slc slc1 brk st st1
              Hcf Hnd Hw1 Hp1 Hmax E1) as [Hnd1 ->].
  simpl. rewrite (channel_loop_skips img_max skipped (c2 :: cs) slc1 st1 Hskip).
  simpl. unfold bind at 1.
  assert (E2 : channel_body interp cfg img_max c2 slc1 st1 = (st1, Raised IndexError)).
  { unfold channel_body.
    unfold bind at 1. unfold lift at 1. unfold getitem. rewrite Hw2.
    destruct (Z.ltb_spec 0 w2) as [_|]; [|lia].
    rewrite Hcf. unfold bind at 1. unfold lift at 1.
    rewrite (second_selection_raises slc1 c2 Hnd1). reflexivity. }
  rewrite E2. reflexivity.
Qed.

End SeveralChannels.

Lemma X14_witness :
  let st' :=
    fst (Curator.stack_loop Sample.flat_interp Sample.cfg_skip 1
           [Ok Sample.stack_two] Sample2.st_skip) in
  Curator.num_slc st' !! 1%nat = Curator.num_slc Sample2.st_skip !! 1%nat /\
  Curator.ds_size st' !! 1%nat = Curator.ds_size Sample2.st_skip !! 1%nat /\
  exists new,
    Curator.written st' = Curator.written Sample2.st_skip ++ new /\
    Spec.of_chan 1 new = [].
Proof.
  apply (X14_skipped_channel_untouched_by_run Sample.flat_interp Sample.cfg_skip
           1 0 1 [Ok Sample.stack_two] Sample2.st_skip).
  - reflexivity.
  - lia.
  - reflexivity.
Defined.

Lemma X15_witness :
  is_ok (snd (Curator.channel_loop Sample.flat_interp Sample.cfg_two 65535
                [0; 1]%nat Sample2.volume_two Sample.st_one)) = false.
Proof.
  apply (X15_channel_first_two_channels_always_raise Sample.flat_interp
           Sample.cfg_two 65535 0 1 488 561 [] [] Sample2.volume_two Sample.st_one).
  - reflexivity.
  - reflexivity.
  - reflexivity.
  - lia.
  - reflexivity.
  - lia.
  - constructor.
  - reflexivity.
Defined.
